(** * search_web.py: a shallow embedding and its verified properties

    The script [skills/search-web/scripts/search_web.py] is a command-line
    front end to a chat-completion endpoint with a web-search plugin, with a
    deterministic short-circuit for Codex CLI changelog questions.

    Python values are modelled as follows.
    - [str] is a list of Unicode code points ([N]).
    - [int] is [Z].
    - a decoded JSON document is the inductive [json]; a JSON object keeps
      its entries in insertion order, as a Python [dict] does.
    - [set[str]] is a [gset], [Dict[int, ...]] is a [gmap Z].
    - printing, network requests, [SystemExit] and uncaught exceptions are
      threaded through a small trace-and-exception monad.

    What the script takes from the Python runtime and does not define itself
    (Unicode case mapping, the decimal-digit table beyond ASCII, the [json]
    codec, [repr]) is collected in the class [PyRuntime]. *)

From Stdlib Require Import String Ascii.
From Stdlib Require Import ZArith NArith Lia Bool.
From Stdlib Require Import Floats.SpecFloat.
From stdpp Require Import base numbers list gmap sorting.

Local Open Scope N_scope.

(** ** Strings *)

Abbreviation pystr := (list N).

(** Literals are written as UTF-8 text and decoded to code points. *)
Fixpoint utf8_decode (s : String.string) (need : nat) (acc : N) : pystr :=
  match s with
  | String.EmptyString => []
  | String.String a r =>
      let b := Ascii.N_of_ascii a in
      match need with
      | O =>
          if b <? 128 then b :: utf8_decode r 0 0
          else if b <? 224 then utf8_decode r 1 (b - 192)
          else if b <? 240 then utf8_decode r 2 (b - 224)
          else utf8_decode r 3 (b - 240)
      | S O => (acc * 64 + (b - 128)) :: utf8_decode r 0 0
      | S n => utf8_decode r n (acc * 64 + (b - 128))
      end
  end.

Definition u (s : String.string) : pystr := utf8_decode s 0 0.
Arguments u s%_string.

Definition ch (s : String.string) : N := hd 0 (u s).
Arguments ch s%_string.

Definition nl : pystr := [10].
Definition dq : pystr := [34].

(** [str.isspace] / the regular-expression class [\s] on [str] patterns
    (CPython's [_PyUnicode_IsWhitespace]). *)
Definition isspace (c : N) : bool :=
  ((9 <=? c) && (c <=? 13)) || ((28 <=? c) && (c <=? 32))
  || (c =? 133) || (c =? 160) || (c =? 5760)
  || ((8192 <=? c) && (c <=? 8202))
  || (c =? 8232) || (c =? 8233) || (c =? 8239) || (c =? 8287) || (c =? 12288).

Fixpoint drop_while (p : N -> bool) (s : pystr) : pystr :=
  match s with
  | [] => []
  | c :: s' => if p c then drop_while p s' else s
  end.

(** [s.lstrip()], [s.rstrip()], [s.strip()] and [s.lstrip(chars)]. *)
Definition lstrip (s : pystr) : pystr := drop_while isspace s.
Definition rstrip (s : pystr) : pystr := rev (drop_while isspace (rev s)).
Definition strip (s : pystr) : pystr := rstrip (lstrip s).

Definition mem_char (chars : pystr) (c : N) : bool := existsb (N.eqb c) chars.
Definition lstrip_chars (chars s : pystr) : pystr := drop_while (mem_char chars) s.

Definition str_eqb (a b : pystr) : bool := bool_decide (a = b).

(** [s.startswith(p)] *)
Fixpoint startswith (p s : pystr) : bool :=
  match p, s with
  | [], _ => true
  | _ :: _, [] => false
  | a :: p', b :: s' => (a =? b) && startswith p' s'
  end.

(** [m in q] on strings: [m] occurs in [q] as a contiguous substring. *)
Fixpoint isin (m q : pystr) : bool :=
  startswith m q ||
  match q with
  | [] => false
  | _ :: q' => isin m q'
  end.

(** [any(k in q for k in ks)] *)
Definition any_in (ks : list pystr) (q : pystr) : bool :=
  existsb (fun k => isin k q) ks.

(** [re.split(r"\s+", s)]: the pieces between maximal whitespace runs,
    including an empty first or last piece when [s] starts or ends with
    whitespace. [cur] is the piece being read (reversed), [insep] tells
    whether the previous character belonged to a separator. *)
Fixpoint re_split_ws_from (s : pystr) (cur : pystr) (insep : bool) : list pystr :=
  match s with
  | [] => [rev cur]
  | c :: s' =>
      if isspace c then
        if insep then re_split_ws_from s' cur true
        else rev cur :: re_split_ws_from s' [] true
      else re_split_ws_from s' (c :: cur) false
  end.

Definition re_split_ws (s : pystr) : list pystr := re_split_ws_from s [] false.

Definition nonempty (s : pystr) : bool :=
  match s with [] => false | _ => true end.

Definition nonempty_list {A} (l : list A) : bool :=
  match l with [] => false | _ => true end.

(** The language-level reading of "tokenize on whitespace": the maximal
    runs of non-whitespace characters, left to right. *)
Fixpoint tokens (s : pystr) : list pystr :=
  match s with
  | [] => []
  | c :: s' =>
      if isspace c then tokens s'
      else match s' with
           | d :: _ =>
               if isspace d then [c] :: tokens s'
               else match tokens s' with
                    | t :: ts => (c :: t) :: ts
                    | [] => [[c]]
                    end
           | [] => [[c]]
           end
  end.

(** ** JSON values *)

#[warnings="-register-all"] Inductive json : Type :=
  | JNull
  | JBool (b : bool)
  | JInt (z : Z)
  | JFloat (f : spec_float)
  | JStr (s : pystr)
  | JList (l : list json)
  | JDict (d : list (pystr * json)).

Abbreviation pydict := (list (pystr * json)).

(** ** Integers as text *)

(** Decimal digits of a natural number, most significant first. *)
Fixpoint dec_digits (fuel : nat) (n : N) (acc : pystr) : pystr :=
  match fuel with
  | O => acc
  | S f =>
      let acc' := (48 + n mod 10) :: acc in
      if n / 10 =? 0 then acc' else dec_digits f (n / 10) acc'
  end.

(** [str(z)] for an [int]. *)
Definition str_of_int (z : Z) : pystr :=
  let n := Z.abs_N z in
  let ds := dec_digits (S (N.to_nat (N.log2 n))) n [] in
  if (z <? 0)%Z then ch "-" :: ds else ds.

(** [f"{z:02d}"]: zero-padded to width two. *)
Definition fmt_02d (z : Z) : pystr :=
  let s := str_of_int z in
  if (length s <? 2)%nat then ch "0" :: s else s.

(** ["sep".join(parts)] *)
Fixpoint join (sep : pystr) (parts : list pystr) : pystr :=
  match parts with
  | [] => []
  | [p] => p
  | p :: rest => p ++ sep ++ join sep rest
  end.

(** [s.split(c)[0]]: the text before the first occurrence of [c]. *)
Fixpoint before_char (c : N) (s : pystr) : pystr :=
  match s with
  | [] => []
  | x :: s' => if x =? c then [] else x :: before_char c s'
  end.

(** Line boundaries of [str.splitlines]. *)
Definition is_linebreak (c : N) : bool :=
  ((10 <=? c) && (c <=? 13)) || ((28 <=? c) && (c <=? 30))
  || (c =? 133) || (c =? 8232) || (c =? 8233).

(** [s.splitlines()]; [after_cr] makes a line feed that follows a carriage
    return part of the same boundary. *)
Fixpoint splitlines_from (s : pystr) (cur : pystr) (after_cr : bool) : list pystr :=
  match s with
  | [] => match cur with [] => [] | _ => [rev cur] end
  | c :: s' =>
      if after_cr && (c =? 10) then splitlines_from s' cur false
      else if is_linebreak c then rev cur :: splitlines_from s' [] (c =? 13)
      else splitlines_from s' (c :: cur) false
  end.

Definition splitlines (s : pystr) : list pystr := splitlines_from s [] false.

(** ** Python views of JSON values *)

(** Truth value of a decoded JSON value. *)
Definition truthy (v : json) : bool :=
  match v with
  | JNull => false
  | JBool b => b
  | JInt z => negb (z =? 0)%Z
  | JFloat f => match f with S754_zero _ => false | _ => true end
  | JStr s => nonempty s
  | JList l => match l with [] => false | _ => true end
  | JDict d => match d with [] => false | _ => true end
  end.

(** [d.get(k)] *)
Fixpoint dict_get (k : pystr) (d : pydict) : option json :=
  match d with
  | [] => None
  | (k', v) :: d' => if str_eqb k k' then Some v else dict_get k d'
  end.

(** [d.get(k) or dflt] *)
Definition get_or (k : pystr) (d : pydict) (dflt : json) : json :=
  match dict_get k d with
  | Some v => if truthy v then v else dflt
  | None => dflt
  end.

(** [d.setdefault(k, v)], as the dictionary it leaves behind. *)
Definition setdefault (k : pystr) (v : json) (d : pydict) : pydict :=
  match dict_get k d with
  | Some _ => d
  | None => d ++ [(k, v)]
  end.

(** What a [for] loop over a value visits; [None] is the [TypeError] of a
    value that is not iterable. *)
Definition py_iter (v : json) : option (list json) :=
  match v with
  | JList l => Some l
  | JStr s => Some (map (fun c => JStr [c]) s)
  | JDict d => Some (map (fun kv => JStr (fst kv)) d)
  | _ => None
  end.

(** Result of [json.loads]. *)
Inductive loads_result :=
  | Loaded (j : json)
  | JSONDecodeError
  | RecursionError.

(** ** The Python runtime the script relies on *)

Class PyRuntime := {
  (** [str.lower] (full Unicode case mapping). *)
  lower : pystr -> pystr;
  (** decimal value of a non-ASCII character of category Nd, as used by
      [\d] and [int]. *)
  unicode_decimal : N -> option Z;
  (** [json.loads]; [RecursionError] is the one exception besides
      [JSONDecodeError] that decoding a [str] can raise. *)
  json_loads : pystr -> loads_result;
  (** [json.dumps(_, ensure_ascii=False)] *)
  json_dumps : json -> pystr;
  (** [json.dumps(_, indent=2, ensure_ascii=False)] *)
  json_dumps_indent : json -> pystr;
  (** [str] of a value that is not a [str] *)
  py_repr : json -> pystr;
}.

(** A runtime that is exact on ASCII and Polish letters, for running the
    model on concrete inputs. *)
Definition lower_char (c : N) : N :=
  if (65 <=? c) && (c <=? 90) then c + 32
  else if (c =? 211) then 243
  else if (c =? 260) || (c =? 262) || (c =? 280) || (c =? 321) || (c =? 323)
          || (c =? 346) || (c =? 377) || (c =? 379) then c + 1
  else c.

Section Script.
Context {RT : PyRuntime}.

(** Decimal value of a character matched by [\d]. *)
Definition decimal (c : N) : option Z :=
  if c <? 128 then
    if (48 <=? c) && (c <=? 57) then Some (Z.of_N (c - 48)) else None
  else unicode_decimal c.

Definition is_digit (c : N) : bool :=
  match decimal c with Some _ => true | None => false end.

(** [str(v)] *)
Definition py_str (v : json) : pystr :=
  match v with
  | JStr s => s
  | _ => py_repr v
  end.

(** *** Version range of a query *)

Fixpoint take_digits (s : pystr) : nat :=
  match s with
  | [] => 0%nat
  | c :: s' => if is_digit c then S (take_digits s') else 0%nat
  end.

(** Length of the greedy optional group "(?:\.\d+)?" at the head of [s]. *)
Definition opt_patch_len (s : pystr) : nat :=
  match s with
  | c :: d :: r =>
      if (c =? ch ".") && is_digit d then (2 + take_digits r)%nat else 0%nat
  | _ => 0%nat
  end.

(** The pattern "0\.(\d{2})(?:\.\d+)?" anchored at the head of [s]:
    [int] of group 1 and the length of the match. *)
Definition match_minor_at (s : pystr) : option (Z * nat) :=
  match s with
  | c0 :: c1 :: d1 :: d2 :: r =>
      if (c0 =? ch "0") && (c1 =? ch ".") then
        match decimal d1, decimal d2 with
        | Some a, Some b => Some ((10 * a + b)%Z, (4 + opt_patch_len r)%nat)
        | _, _ => None
        end
      else None
  | _ => None
  end.

(** [[int(m.group(1)) for m in re.finditer(pattern, s)]]: successive
    leftmost matches; the search resumes where the previous match ended
    ([skip] characters of an accepted match are still to be passed). *)
Fixpoint finditer_minors (s : pystr) (skip : nat) : list Z :=
  match s with
  | [] => []
  | _ :: s' =>
      match skip with
      | S k => finditer_minors s' k
      | O =>
          match match_minor_at s with
          | Some (m, len) => m :: finditer_minors s' (len - 1)
          | None => finditer_minors s' 0
          end
      end
  end.

Definition list_min (x : Z) (xs : list Z) : Z := fold_left Z.min xs x.
Definition list_max (x : Z) (xs : list Z) : Z := fold_left Z.max xs x.

Definition _extract_codex_cli_range (query : pystr) : option (Z * Z) :=
  match finditer_minors query 0 with
  | [] => None
  | m :: ms => Some (list_min m ms, list_max m ms)
  end.

(** *** Bullets of a release body *)

Definition bullet_chars : pystr := u "-*".

Fixpoint bullets_loop (limit : Z) (lines : list pystr) (bullets : list pystr)
  : list pystr :=
  match lines with
  | [] => bullets
  | line :: rest =>
      let s := strip line in
      if negb (nonempty s) then bullets_loop limit rest bullets
      else if startswith (u "-") s || startswith (u "*") s then
        let item := strip (lstrip_chars bullet_chars s) in
        if nonempty item then
          let bullets' := bullets ++ [item] in
          if (limit <=? Z.of_nat (length bullets'))%Z then bullets'
          else bullets_loop limit rest bullets'
        else bullets_loop limit rest bullets
      else bullets_loop limit rest bullets
  end.

Definition _summarize_bullets_from_markdown (body : pystr) (limit : Z) : list pystr :=
  bullets_loop limit (splitlines body) [].

(** *** The structured plan of one research iteration *)

(** The loop of [_extract_first_json_object], entered at the first opening
    brace: the text up to the closing brace that brings the depth back to
    zero. [seen] is the text already passed, reversed. *)
Fixpoint brace_scan (s : pystr) (depth : Z) (seen : pystr) : option pystr :=
  match s with
  | [] => None
  | c :: s' =>
      if c =? 123 then brace_scan s' (depth + 1) (c :: seen)
      else if c =? 125 then
        let depth' := (depth - 1)%Z in
        if (depth' =? 0)%Z then Some (rev (c :: seen))
        else brace_scan s' depth' (c :: seen)
      else brace_scan s' depth (c :: seen)
  end.

Definition _extract_first_json_object (text : pystr) : option pydict :=
  match drop_while (fun c => negb (c =? 123)) text with
  | [] => None
  | s =>
      match brace_scan s 0 [] with
      | None => None
      | Some chunk =>
          match json_loads chunk with
          | Loaded (JDict d) => Some d
          | _ => None
          end
      end
  end.

(** Lines 284-290 of [_openrouter_web_search_json_plan]: from the text of
    the reply to the dictionary that is returned. *)
Definition plan_of_content (content : pystr) : pydict :=
  let obj :=
    match _extract_first_json_object content with
    | Some d => if truthy (JDict d) then d else []
    | None => []
    end in
  setdefault (u "followup_queries") (JList [])
    (setdefault (u "sources") (JList [])
       (setdefault (u "tldr_bullets") (JList []) obj)).

(** *** Merging the sources of the iterations *)

Record source := { title : pystr; url : pystr }.

(** One pass of the inner loop body over an element [s] of a step's
    sources. *)
Definition merge_one (s : json) (st : list source * gset (list N))
  : list source * gset (list N) :=
  match s with
  | JDict d =>
      let url := strip (py_str (get_or (u "url") d (JStr []))) in
      let title := strip (py_str (get_or (u "title") d (JStr []))) in
      if negb (nonempty url) || bool_decide (url ∈ st.2) then st
      else (st.1 ++ [ {| title := if nonempty title then title else url;
                         url := url |} ],
            {[ url ]} ∪ st.2)
  | _ => st
  end.

(** The two nested loops over [(step1, step2, step3)]; [None] is the
    [TypeError] raised when a step's sources are not iterable. *)
Fixpoint merge_steps (steps : list pydict) (st : list source * gset (list N))
  : option (list source * gset (list N)) :=
  match steps with
  | [] => Some st
  | step :: rest =>
      match py_iter (get_or (u "sources") step (JList [])) with
      | None => None
      | Some items => merge_steps rest (foldl (fun acc s => merge_one s acc) st items)
      end
  end.

Definition merged_sources (step1 step2 step3 : pydict) : option (list source) :=
  match merge_steps [step1; step2; step3] ([], ∅) with
  | Some st => Some st.1
  | None => None
  end.

Definition em_dash : pystr := u " — ".

(** The lines of [numbered_sources]. *)
Definition numbered_lines (sources : list source) : list pystr :=
  imap (fun i s => u "[" ++ str_of_int (Z.of_nat i + 1) ++ u "] "
                     ++ title s ++ em_dash ++ url s)
       (take 12 sources).

Definition numbered_sources (sources : list source) : pystr :=
  join nl (numbered_lines sources).

(** *** Query classification *)

Definition complexity_markers : list pystr :=
  [ u "porówn"; u "różnic"; u "wady"; u "zalety"; u "dlaczego";
    u "jak zrobić"; u "krok po kroku"; u "strategi"; u "plan"; u "analiz";
    u "relacj"; u "histori"; u "tło"; u "konsekwenc"; u "wpływ";
    u "kontrowers"; u "zależy" ].

Inductive label := banal | complex.

Definition _classify_query (query : pystr) : label :=
  let q := lower (strip query) in
  let words := filter (fun w => nonempty w = true) (re_split_ws q) in
  if (length words <=? 6)%nat then banal
  else if any_in complexity_markers q then complex
  else if (12 <=? length words)%nat then complex
  else banal.

Inductive mode_name := auto | simple | deep.

Definition deep_keywords : list pystr :=
  [ u "3 razy"; u "trzy razy"; u "iterac"; u "seria wyszuka"; u "zgłębia";
    u "głębok"; u "deep" ].

Definition simple_keywords : list pystr :=
  [ u "proste"; u "szybko"; u "jedno wyszuk"; u "jednoraz"; u "basic" ].

Definition _explicit_depth_intent (query : pystr) : option mode_name :=
  let q := lower query in
  if any_in deep_keywords q then Some deep
  else if any_in simple_keywords q then Some simple
  else None.

End Script.

(** ** Effects: output streams, network, exceptions *)

Inductive event :=
  | Stdout (text : pystr)
  | Stderr (text : pystr)
  | HttpGet (url : pystr) (headers : list (pystr * pystr))
  | HttpPost (url : pystr) (headers : list (pystr * pystr)) (payload : json).

(** What [urllib.request.urlopen] and reading the response come to. *)
Inductive reply :=
  | NetFailed (e : pystr)
  | NetHTTPError (code : Z) (raw : pystr)
  | NetBody (raw : pystr).

Inductive exn :=
  | SystemExit (code : Z)
  | TypeError
  | KeyError
  | IndexError
  | Recursion.

Inductive outcome (A : Type) :=
  | Normal (a : A)
  | Raised (e : exn).
Arguments Normal {A} a.
Arguments Raised {A} e.

(** A computation extends the trace of events and ends normally or with an
    exception. *)
Definition M (A : Type) : Type := list event -> outcome A * list event.

Definition ret {A} (a : A) : M A := fun t => (Normal a, t).
Definition raise {A} (e : exn) : M A := fun t => (Raised e, t).
Definition bind {A B} (c : M A) (k : A -> M B) : M B :=
  fun t => match c t with
           | (Normal a, t') => k a t'
           | (Raised e, t') => (Raised e, t')
           end.
Definition emit (e : event) : M unit := fun t => (Normal tt, t ++ [e]).

Notation "'let!' x ':=' c 'in' k" := (bind c (fun x => k))
  (at level 10, x name, c at level 100, k at level 200).

(** Exit status of the interpreter. *)
Definition exit_code {A} (o : outcome A) : Z :=
  match o with
  | Normal _ => 0
  | Raised (SystemExit c) => c
  | Raised _ => 1
  end.

Definition is_network (e : event) : bool :=
  match e with
  | HttpGet _ _ | HttpPost _ _ _ => true
  | _ => false
  end.

Definition is_post (e : event) : bool :=
  match e with
  | HttpPost _ _ _ => true
  | _ => false
  end.

Definition stdout_of (t : list event) : list pystr :=
  omap (fun e => match e with Stdout s => Some s | _ => None end) t.

Definition stderr_of (t : list event) : list pystr :=
  omap (fun e => match e with Stderr s => Some s | _ => None end) t.

Definition OPENROUTER_URL : pystr := u "https://openrouter.ai/api/v1/chat/completions".
Definition GITHUB_RELEASES_API : pystr :=
  u "https://api.github.com/repos/openai/codex/releases?per_page=100".

Record args := {
  query : pystr;
  max_results : Z;
  model : pystr;
  lang : pystr;
  mode : mode_name;
}.

Section Program.
Context {RT : PyRuntime}.
(** The network, as a function of everything that happened so far (the
    request being answered is the last event). *)
Variable urlopen : list event -> reply.
(** [os.environ.get("OPENROUTER_API_KEY")] *)
Variable environ_api_key : option pystr.

Definition _die {A} (message : pystr) : M A :=
  let! _ := emit (Stderr message) in raise (SystemExit 2).

Definition print (text : pystr) : M unit := emit (Stdout text).

Definition send (e : event) : M reply :=
  let! _ := emit e in fun t => (Normal (urlopen t), t).

Definition _request (api_key : pystr) (payload : json) : M json :=
  let! r := send (HttpPost OPENROUTER_URL
                    [ (u "Authorization", u "Bearer " ++ api_key);
                      (u "Content-Type", u "application/json") ]
                    payload) in
  match r with
  | NetHTTPError code raw =>
      _die (u "OpenRouter HTTP error: " ++ str_of_int code ++ nl ++ raw)
  | NetFailed e => _die (u "OpenRouter request failed: " ++ e)
  | NetBody raw =>
      match json_loads raw with
      | Loaded j => ret j
      | JSONDecodeError => _die (u "OpenRouter returned non-JSON response:" ++ nl ++ raw)
      | RecursionError => raise Recursion
      end
  end.

Definition _http_get_json (url : pystr) (headers : list (pystr * pystr)) : M json :=
  let! r := send (HttpGet url headers) in
  match r with
  | NetHTTPError code raw => _die (u "HTTP error: " ++ str_of_int code ++ nl ++ raw)
  | NetFailed e => _die (u "HTTP request failed: " ++ e)
  | NetBody raw =>
      match json_loads raw with
      | Loaded j => ret j
      | JSONDecodeError => _die (u "Non-JSON response:" ++ nl ++ raw)
      | RecursionError => raise Recursion
      end
  end.

(** *** The changelog short-circuit *)

(** [re.fullmatch(r"rust-v0\.(\d{2})\.0", tag)], as [int] of group 1. *)
Definition fullmatch_tag (tag : pystr) : option Z :=
  if startswith (u "rust-v0.") tag then
    match drop 8 tag with
    | [d1; d2; c1; c0] =>
        if (c1 =? ch ".") && (c0 =? ch "0") then
          match decimal d1, decimal d2 with
          | Some a, Some b => Some (10 * a + b)%Z
          | _, _ => None
          end
        else None
    | _ => None
    end
  else None.

(** The minor of a listed release that the loop keeps, if any. *)
Definition release_minor (min_minor max_minor : Z) (r : json) : option (Z * pydict) :=
  match r with
  | JDict d =>
      match fullmatch_tag (py_str (get_or (u "tag_name") d (JStr []))) with
      | Some minor =>
          if (min_minor <=? minor)%Z && (minor <=? max_minor)%Z
          then Some (minor, d) else None
      | None => None
      end
  | _ => None
  end.

Definition collect_releases (min_minor max_minor : Z) (data : list json)
  : gmap Z pydict :=
  foldl (fun releases r =>
           match release_minor min_minor max_minor r with
           | Some (minor, d) => <[minor := d]> releases
           | None => releases
           end) ∅ data.

(** [range(lo, hi)] *)
Definition py_range (lo hi : Z) : list Z := seqZ lo (hi - lo).

Definition missing_minors (min_minor max_minor : Z) (releases : gmap Z pydict) : list Z :=
  filter (fun m => releases !! m = None) (py_range min_minor (max_minor + 1)).

(** [sorted(releases)] *)
Definition sorted_minors (releases : gmap Z pydict) : list Z :=
  merge_sort Z.le (map fst (map_to_list releases)).

Definition version_text (minor : Z) : pystr := u "0." ++ fmt_02d minor ++ u ".0".

Definition release_url (minor : Z) (r : pydict) : pystr :=
  py_str (get_or (u "html_url") r
            (JStr (u "https://github.com/openai/codex/releases/tag/rust-v"
                     ++ version_text minor))).

Definition placeholder_line : pystr := u "- (brak szczegółów w opisie release)".

(** The lines one pass of the first [for minor in sorted(releases)] loop
    appends. *)
Definition release_block (minor : Z) (r : pydict) : list pystr :=
  let url := release_url minor r in
  let date := before_char (ch "T") (py_str (get_or (u "published_at") r (JStr []))) in
  let published := if nonempty date then date else u "—" in
  let body := strip (py_str (get_or (u "body") r (JStr []))) in
  let bullets := _summarize_bullets_from_markdown body 8 in
  [ version_text minor ++ u " (" ++ published ++ u "):" ]
  ++ (if nonempty_list bullets then map (fun b => u "- " ++ b) bullets
      else [ placeholder_line ])
  ++ [ u "  Źródło: " ++ url; [] ].

Definition missing_note (missing : list Z) : pystr :=
  u "Brak stabilnych wydań w tym zakresie dla: "
  ++ join (u ", ") (map version_text missing).

Definition releases_of (releases : gmap Z pydict) : list (Z * pydict) :=
  omap (fun minor => match releases !! minor with
                     | Some r => Some (minor, r)
                     | None => None
                     end) (sorted_minors releases).

(** The list [lines] when the function reaches its [return]. *)
Definition report_lines (min_minor max_minor : Z) (releases : gmap Z pydict)
  (lang : pystr) : list pystr :=
  let missing := missing_minors min_minor max_minor releases in
  [ u "TL;DR: Codex CLI " ++ version_text min_minor ++ u " → " ++ version_text max_minor;
    [] ]
  ++ flat_map (fun mr => release_block mr.1 mr.2) (releases_of releases)
  ++ (if nonempty_list missing then [ missing_note missing; [] ] else [])
  ++ [ u "Źródła:"; u "- https://github.com/openai/codex/releases" ]
  ++ map (fun mr => u "- " ++ release_url mr.1 mr.2) (releases_of releases)
  ++ (if str_eqb lang (u "pl") then []
      else [ []; u "(Uwaga: lang=" ++ lang ++ u "; tryb TL;DR obecnie wypisuje po polsku.)" ]).

Definition report (min_minor max_minor : Z) (releases : gmap Z pydict)
  (lang : pystr) : pystr :=
  rstrip (join nl (report_lines min_minor max_minor releases lang)) ++ nl.

Definition changelog_headers : list (pystr * pystr) :=
  [ (u "Accept", u "application/vnd.github+json");
    (u "User-Agent", u "codex-skill-search-web") ].

Definition _maybe_codex_cli_changelog_tldr (query lang : pystr) : M (option pystr) :=
  let q := lower query in
  if negb (isin (u "codex") q) || negb (isin (u "cli") q) then ret None
  else
    match _extract_codex_cli_range query with
    | None => ret None
    | Some (min_minor, max_minor) =>
        if (max_minor <? min_minor)%Z then ret None
        else
          let! data := _http_get_json GITHUB_RELEASES_API changelog_headers in
          match data with
          | JList rs =>
              let releases := collect_releases min_minor max_minor rs in
              if bool_decide (releases = ∅) then ret None
              else ret (Some (report min_minor max_minor releases lang))
          | _ => ret None
          end
    end.

(** *** Calls to the chat-completion endpoint *)

(** [str(data["choices"][0]["message"]["content"])]; [None] is any
    exception of the subscript chain. *)
Definition schema_content (data : json) : option pystr :=
  match data with
  | JDict d =>
      match dict_get (u "choices") d with
      | Some (JList (JDict c :: _)) =>
          match dict_get (u "message") c with
          | Some (JDict m) =>
              match dict_get (u "content") m with
              | Some v => Some (py_str v)
              | None => None
              end
          | _ => None
          end
      | _ => None
      end
  | _ => None
  end.

Definition schema_error {A} (data : json) : M A :=
  _die (u "Unexpected OpenRouter response schema:" ++ nl ++ json_dumps_indent data).

Definition user_message (prompt : pystr) : json :=
  JList [ JDict [ (u "role", JStr (u "user")); (u "content", JStr prompt) ] ].

Definition web_payload (model : pystr) (max_results : Z) (prompt : pystr) : json :=
  JDict [ (u "model", JStr model);
          (u "plugins", JList [ JDict [ (u "id", JStr (u "web"));
                                        (u "max_results", JInt max_results) ] ]);
          (u "messages", user_message prompt) ].

Definition search_prompt (query lang : pystr) : pystr :=
  u "Sprawdź w sieci: " ++ query ++ nl ++ nl
  ++ u "Wymagania:" ++ nl
  ++ u "- Odpowiedz po " ++ lang ++ u " (jeśli użytkownik nie prosi inaczej)." ++ nl
  ++ u "- Streść w 6–12 punktach." ++ nl
  ++ u "- Dodaj cytowania w tekście w formacie [1], [2]..." ++ nl
  ++ u "- Na końcu dodaj sekcję 'Źródła:' jako listę numerowaną: [n] tytuł — URL." ++ nl
  ++ u "- Jeśli informacje są rozbieżne, pokaż 2–3 warianty i oznacz cytowaniami." ++ nl
  ++ u "- Preferuj źródła pierwotne/oficjalne (docs, release notes, GitHub releases) nad blogami i agregatorami." ++ nl.

Definition _openrouter_web_search (api_key model query lang : pystr) (max_results : Z)
  : M pystr :=
  let! data := _request api_key (web_payload model max_results (search_prompt query lang)) in
  match schema_content data with
  | Some content => ret content
  | None => schema_error data
  end.

Definition quoted (s : pystr) : pystr := dq ++ s ++ dq.

Definition plan_prompt (query lang : pystr) : pystr :=
  u "Sprawdź w sieci: " ++ query ++ nl ++ nl
  ++ u "Zwróć WYŁĄCZNIE poprawny JSON (bez markdown), w schemacie:" ++ nl
  ++ u "{" ++ nl
  ++ u "  " ++ quoted (u "tldr_bullets") ++ u ": [" ++ quoted (u "...") ++ u "]," ++ nl
  ++ u "  " ++ quoted (u "sources") ++ u ": [{" ++ quoted (u "title") ++ u ":"
       ++ quoted (u "...") ++ u "," ++ quoted (u "url") ++ u ":" ++ quoted (u "...")
       ++ u "}]," ++ nl
  ++ u "  " ++ quoted (u "followup_queries") ++ u ": [" ++ quoted (u "...") ++ u ","
       ++ quoted (u "...") ++ u "]" ++ nl
  ++ u "}" ++ nl
  ++ u "Zasady:" ++ nl
  ++ u "- język: " ++ lang ++ nl
  ++ u "- 5–10 bulletów" ++ nl
  ++ u "- sources: 3–8 pozycji, preferuj źródła pierwotne/oficjalne" ++ nl
  ++ u "- followup_queries: max 2, bardziej szczegółowe niż startowe" ++ nl.

Definition _openrouter_web_search_json_plan (api_key model query lang : pystr)
  (max_results : Z) : M pydict :=
  let! data := _request api_key (web_payload model max_results (plan_prompt query lang)) in
  match schema_content data with
  | Some content => ret (plan_of_content content)
  | None => schema_error data
  end.

(** *** Deep search *)

(** [len(v)] *)
Definition py_len (v : json) : option nat :=
  match v with
  | JList l => Some (length l)
  | JStr s => Some (length s)
  | JDict d => Some (length d)
  | _ => None
  end.

(** [str(v[i])] for an index [i] below [len(v)] *)
Definition str_item (v : json) (i : nat) : M pystr :=
  match v with
  | JList l =>
      match l !! i with
      | Some x => ret (py_str x)
      | None => raise IndexError
      end
  | JStr s =>
      match s !! i with
      | Some c => ret [c]
      | None => raise IndexError
      end
  | JDict _ => raise KeyError
  | _ => raise TypeError
  end.

(** [str(followups[i]) if len(followups) >= i + 1 else fallback] *)
Definition followup_or (followups : json) (i : nat) (fallback : pystr) : M pystr :=
  match py_len followups with
  | None => raise TypeError
  | Some n => if (i + 1 <=? n)%nat then str_item followups i else ret fallback
  end.

Definition synthesis_prompt (query lang : pystr) (step1 step2 step3 : pydict)
  (sources : list source) : pystr :=
  u "Zsyntetyzuj odpowiedź na pytanie użytkownika: " ++ query ++ nl ++ nl
  ++ u "Masz wyniki trzech iteracji researchu (poniżej). Zrób finalny skrót:" ++ nl
  ++ u "- język: " ++ lang ++ nl
  ++ u "- 6–12 punktów" ++ nl
  ++ u "- cytowania w tekście w formacie [n] odnoszące się do listy 'Źródła' poniżej" ++ nl
  ++ u "- jeśli są rozbieżności, pokaż 2–3 warianty i oznacz cytowaniami" ++ nl ++ nl
  ++ u "Iteracja 1 (JSON): " ++ json_dumps (JDict step1) ++ nl ++ nl
  ++ u "Iteracja 2 (JSON): " ++ json_dumps (JDict step2) ++ nl ++ nl
  ++ u "Iteracja 3 (JSON): " ++ json_dumps (JDict step3) ++ nl ++ nl
  ++ u "Źródła:" ++ nl ++ numbered_sources sources ++ nl.

Definition _deep_search_3x (api_key model query lang : pystr) (max_results : Z)
  : M pystr :=
  let! step1 := _openrouter_web_search_json_plan api_key model query lang max_results in
  let followups := get_or (u "followup_queries") step1 (JList []) in
  let! q2 := followup_or followups 0 (query ++ u " szczegóły") in
  let! q3 := followup_or followups 1 (query ++ u " kontekst i źródła") in
  let! step2 := _openrouter_web_search_json_plan api_key model q2 lang max_results in
  let! step3 := _openrouter_web_search_json_plan api_key model q3 lang max_results in
  match merged_sources step1 step2 step3 with
  | None => raise TypeError
  | Some sources =>
      let payload :=
        JDict [ (u "model", JStr model);
                (u "messages",
                 user_message (synthesis_prompt query lang step1 step2 step3 sources)) ] in
      let! data := _request api_key payload in
      match schema_content data with
      | Some content => ret (rstrip content ++ nl)
      | None => schema_error data
      end
  end.

(** *** The entry point *)

Definition menu_text : pystr :=
  u "To wygląda na pytanie średnie/trudne. Wybierz tryb wyszukiwania:" ++ nl ++ nl
  ++ u "a) Proste wyszukanie (1 raz) — odpisz: `proste` albo uruchom z `--mode simple`" ++ nl
  ++ u "b) Seria 3 wyszukań (zgłębianie) + synteza — odpisz: `seria` albo uruchom z `--mode deep`" ++ nl.

(** [main] from the point where the mode is known. *)
Definition run_mode (a : args) (api_key : pystr) (m : mode_name) : M unit :=
  match m with
  | deep =>
      let! out := _deep_search_3x api_key (model a) (query a) (lang a) (max_results a) in
      print out
  | _ =>
      let! out := _openrouter_web_search api_key (model a) (query a) (lang a) (max_results a) in
      print (rstrip out ++ nl)
  end.

(** [main] after the changelog short-circuit declined (lines 377-401). *)
Definition llm_path (a : args) : M unit :=
  match environ_api_key with
  | None => _die (u "Missing OPENROUTER_API_KEY in environment.")
  | Some api_key =>
      if negb (nonempty api_key) then _die (u "Missing OPENROUTER_API_KEY in environment.")
      else
        match mode a with
        | auto =>
            match _explicit_depth_intent (query a) with
            | Some explicit => run_mode a api_key explicit
            | None =>
                match _classify_query (query a) with
                | complex => print menu_text
                | banal => run_mode a api_key simple
                end
            end
        | m => run_mode a api_key m
        end
  end.

(** [main] after the validation of [--max-results] (lines 372-401). *)
Definition after_validation (a : args) : M unit :=
  let! codex_tldr := _maybe_codex_cli_changelog_tldr (query a) (lang a) in
  match codex_tldr with
  | Some text => if nonempty text then print text else llm_path a
  | None => llm_path a
  end.

Definition main (a : args) : M unit :=
  if (max_results a <? 1)%Z || (20 <? max_results a)%Z
  then _die (u "--max-results must be between 1 and 20")
  else after_validation a.

End Program.

(** ** A runtime for running the model

    Case mapping is exact on ASCII and the Polish alphabet, no character
    outside ASCII counts as a digit, and [json.loads] decodes the documents
    of a table. *)

Definition table_loads (tbl : list (pystr * json)) (s : pystr) : loads_result :=
  match dict_get s tbl with
  | Some j => Loaded j
  | None => JSONDecodeError
  end.

Definition table_runtime (tbl : list (pystr * json)) : PyRuntime := {|
  lower := map lower_char;
  unicode_decimal := λ _, None;
  json_loads := table_loads tbl;
  json_dumps := λ _, u "{}";
  json_dumps_indent := λ _, u "{}";
  py_repr := λ _, u "None";
|}.

(** * Specification vocabulary *)

Local Close Scope N_scope.

Definition occurs (m q : pystr) : Prop := ∃ a b, q = a ++ m ++ b.

(** The item a line contributes: the line, trimmed, starts with "-" or "*",
    and what is left after the leading markers, trimmed, is not empty. *)
Definition bullet_item (line : pystr) : option pystr :=
  let s := strip line in
  if startswith (u "-") s || startswith (u "*") s then
    let item := strip (lstrip_chars bullet_chars s) in
    if nonempty item then Some item else None
  else None.

Definition note_prefix : pystr := u "Brak stabilnych wydań w tym zakresie dla: ".

(** A line that opens like the note on missing releases. *)
Definition is_note_line (l : pystr) : Prop := startswith note_prefix l = true.

#[local] Instance is_note_line_dec l : Decision (is_note_line l).
Proof. unfold is_note_line. apply _. Defined.

Definition brace_weight (c : N) : Z :=
  if (c =? 123)%N then 1 else if (c =? 125)%N then -1 else 0.

(** Opening minus closing braces of a text. *)
Definition brace_depth (s : pystr) : Z :=
  foldr (λ c d, brace_weight c + d)%Z 0%Z s.

(** A text that opens with a brace and closes, with its last character,
    the brace it opened with: the depth is zero at its end and positive
    after each shorter non-empty prefix. *)
Definition first_balanced (chunk : pystr) : Prop :=
  (∃ body, chunk = 123%N :: body)
  ∧ brace_depth chunk = 0%Z
  ∧ ∀ k, (0 < k < length chunk)%nat → (0 < brace_depth (take k chunk))%Z.

Definition plan_keys : list pystr :=
  [u "tldr_bullets"; u "sources"; u "followup_queries"].

Definition empty_plan : pydict :=
  [ (u "tldr_bullets", JList []); (u "sources", JList []);
    (u "followup_queries", JList []) ].

(** A computation that ends normally, with a result satisfying [P]. *)
Definition succeeds_with {A} (P : A → Prop) (c : M A) : Prop :=
  ∀ t, ∃ a t', c t = (Normal a, t') ∧ P a.

(** The plan can be consumed by the deep search without a type error. *)
Definition well_formed_plan (p : pydict) : Prop :=
  (∃ l, get_or (u "followup_queries") p (JList []) = JList l)
  ∧ is_Some (py_iter (get_or (u "sources") p (JList []))).

Section Vocabulary.
Context {RT : PyRuntime}.
Variable urlopen : list event → reply.

(** The text contains "0.NN" with two decimal digits of value [m]. *)
Definition minor_occurs (m : Z) (s : pystr) : Prop :=
  ∃ a b d1 d2 v1 v2,
    s = a ++ [ch "0"; ch "."; d1; d2] ++ b
    ∧ decimal d1 = Some v1 ∧ decimal d2 = Some v2 ∧ m = (10 * v1 + v2)%Z.

(** The entry an element of a step's sources stands for: a JSON object
    whose url, as text and trimmed, is not empty. *)
Definition candidate (s : json) : option source :=
  match s with
  | JDict d =>
      let url := strip (py_str (get_or (u "url") d (JStr []))) in
      let title := strip (py_str (get_or (u "title") d (JStr []))) in
      if nonempty url
      then Some {| title := if nonempty title then title else url; url := url |}
      else None
  | _ => None
  end.

Definition step_candidates (step : pydict) : option (list source) :=
  match py_iter (get_or (u "sources") step (JList [])) with
  | Some items => Some (omap candidate items)
  | None => None
  end.

(** Keep an entry when its url was not seen before: first occurrence wins,
    order kept. *)
Fixpoint first_by_url (seen : list pystr) (cs : list source) : list source :=
  match cs with
  | [] => []
  | c :: cs' =>
      if bool_decide (url c ∈ seen) then first_by_url seen cs'
      else c :: first_by_url (url c :: seen) cs'
  end.

(** The tag of a listed release, as the loop reads it. *)
Definition tag_of (d : pydict) : pystr := py_str (get_or (u "tag_name") d (JStr [])).

Definition get_reply_ok (r : reply) : Prop :=
  ∃ raw data, r = NetBody raw ∧ json_loads raw = Loaded data.

Definition chat_reply_ok (r : reply) : Prop :=
  ∃ raw data content,
    r = NetBody raw ∧ json_loads raw = Loaded data
    ∧ schema_content data = Some content
    ∧ well_formed_plan (plan_of_content content).

(** Every request is answered, with a document of the expected shape. *)
Definition transport_ok : Prop :=
  ∀ t,
    match last t with
    | Some (HttpPost _ _ _) => chat_reply_ok (urlopen t)
    | _ => get_reply_ok (urlopen t)
    end.

End Vocabulary.

Abbreviation fetch := (HttpGet GITHUB_RELEASES_API changelog_headers).
Abbreviation missing_key :=
  (Stderr (u "Missing OPENROUTER_API_KEY in environment.")).

(** ** Sample inputs *)

Definition sample_args (q : pystr) (n : Z) (m : mode_name) : args :=
  {| query := q; max_results := n; model := u "google/gemini-2.5-flash-lite";
     lang := u "pl"; mode := m |}.

Definition offline : list event → reply := λ _, NetFailed (u "offline").

Definition releases_object : list (pystr * json) := [ (u "{}", JDict []) ].

Definition chat_document : json :=
  JDict [ (u "choices",
           JList [ JDict [ (u "message",
                            JDict [ (u "content", JStr (u "brak planu")) ]) ] ]) ].

Definition chat_table : list (pystr * json) := [ (u "ok", chat_document) ].

Definition ill_typed_plan_text : pystr :=
  u "{" ++ quoted (u "followup_queries") ++ u ": 5}".

Definition ill_typed_table : list (pystr * json) :=
  [ (u "ok",
     JDict [ (u "choices",
              JList [ JDict [ (u "message",
                               JDict [ (u "content", JStr ill_typed_plan_text) ]) ] ]) ]);
    (ill_typed_plan_text, JDict [ (u "followup_queries", JInt 5) ]) ].

Definition reply_with_object : pystr :=
  u "Plan: {" ++ quoted (u "sources") ++ u ": 1} koniec".

Definition object_table : list (pystr * json) :=
  [ (u "{" ++ quoted (u "sources") ++ u ": 1}", JDict [ (u "sources", JInt 1) ]) ].

Definition sample_step (entries : list (pystr * pystr)) : pydict :=
  [ (u "sources",
     JList (map (λ e, JDict [ (u "title", JStr e.1); (u "url", JStr e.2) ]) entries)) ].

(** ** Vocabulary of the further properties *)

Definition is_get (e : event) : bool :=
  match e with
  | HttpGet _ _ => true
  | _ => false
  end.

(** A stretch of the trace without output: requests only. *)
Definition quiet (ext : list event) : Prop :=
  Forall (λ e, is_network e = true) ext.

(** The request [_request] sends for a key and a payload. *)
Definition chat_post (api_key : pystr) (payload : json) : event :=
  HttpPost OPENROUTER_URL
    [ (u "Authorization", u "Bearer " ++ api_key);
      (u "Content-Type", u "application/json") ]
    payload.

(** The two requests the script knows: the releases listing, without
    credentials, and a chat completion carrying the key of the
    environment. *)
Definition allowed_request (key : option pystr) (e : event) : Prop :=
  e = fetch ∨ ∃ k payload, key = Some k ∧ e = chat_post k payload.

(** What a computation may have added to the trace, given how it ended.
    [final] tells whether a normal end prints the result. *)
Definition ext_ok (final : bool) {A} (o : outcome A) (ext : list event) : Prop :=
  match o with
  | Normal _ =>
      if final then ∃ net text, ext = net ++ [Stdout text] ∧ quiet net
      else quiet ext
  | Raised (SystemExit c) =>
      c = 2%Z ∧ ∃ net msg, ext = net ++ [Stderr msg] ∧ quiet net
  | Raised _ => quiet ext
  end.

Definition disciplined (final : bool) (key : option pystr) (g p : nat)
  {A} (c : M A) : Prop :=
  ∀ t, ∃ ext,
    (c t).2 = t ++ ext
    ∧ ext_ok final (c t).1 ext
    ∧ Forall (λ e, is_network e = true → allowed_request key e) ext
    ∧ length (filter is_get ext) ≤ g
    ∧ length (filter is_post ext) ≤ p.

Definition with_mode (a : args) (m : mode_name) : args :=
  {| query := query a; max_results := max_results a; model := model a;
     lang := lang a; mode := m |}.

Section MoreVocabulary.
Context {RT : PyRuntime}.

(** The release that the loop of the short-circuit leaves under a minor:
    the last listed one whose tag carries it. *)
Fixpoint last_release (lo hi m : Z) (data : list json) : option pydict :=
  match data with
  | [] => None
  | r :: rest =>
      match last_release lo hi m rest with
      | Some d => Some d
      | None =>
          match release_minor lo hi r with
          | Some (m', d) => if bool_decide (m' = m) then Some d else None
          | None => None
          end
      end
  end.

(** One format-and-parse check of a minor, for the finite range of
    two-digit minors. *)
Definition version_round_trip (m : Z) : bool :=
  bool_decide (fullmatch_tag (u "rust-v" ++ version_text m) = Some m)
  && bool_decide (_extract_codex_cli_range (version_text m) = Some (m, m))
  && bool_decide (length (fmt_02d m) = 2).

(** What makes the short-circuit ask for the releases listing. *)
Definition triggered (q : pystr) : Prop :=
  occurs (u "codex") (lower q) ∧ occurs (u "cli") (lower q) ∧ ∃ m, minor_occurs m q.

End MoreVocabulary.

Section RunVocabulary.
Context {RT : PyRuntime}.
Variable urlopen : list event → reply.

(** Every reply is a document of the expected shape whose content holds no
    opening brace. *)
Definition plain_replies : Prop :=
  ∀ t, ∃ raw data content,
    urlopen t = NetBody raw ∧ json_loads raw = Loaded data
    ∧ schema_content data = Some content ∧ 123%N ∉ content.

End RunVocabulary.

(** A text without white space at either end. *)
Definition trimmed (s : pystr) : Prop :=
  ∀ c, head s = Some c ∨ last s = Some c → isspace c = false.

(** ** Further sample inputs *)

Definition listed_release : pydict :=
  [ (u "tag_name", JStr (u "rust-v0.80.0"));
    (u "body", JStr (u "- alfa" ++ nl ++ u "- beta")) ].

Definition releases_table : list (pystr * json) :=
  [ (u "releases", JList [ JDict listed_release ]) ].

(** * Properties *)

(** ** Strings *)

Lemma startswith_spec p s : startswith p s = true ↔ ∃ b, s = p ++ b.
Proof.
  revert s. induction p as [|a p IH]; intros s; simpl.
  - split; [eauto | done].
  - destruct s as [|b s].
    + split; [done | intros [? ?]; done].
    + rewrite andb_true_iff, N.eqb_eq, IH. split.
      * intros [-> [r ->]]. eauto.
      * intros [r Hr]. injection Hr as -> ->. eauto.
Qed.

Lemma isin_spec m q : isin m q = true ↔ occurs m q.
Proof.
  unfold occurs. induction q as [|c q IH].
  - simpl. rewrite orb_false_r, startswith_spec. split.
    + intros [b Hb]. exists [], b. done.
    + intros (a & b & H). destruct a; [eauto|done].
  - cbn [isin]. rewrite orb_true_iff, IH, startswith_spec. split.
    + intros [[b Hb] | (a & b & ->)].
      * exists [], b. done.
      * exists (c :: a), b. done.
    + intros (a & b & H). destruct a as [|x a].
      * left. eauto.
      * right. injection H as -> ->. eauto.
Qed.

Lemma any_in_spec ks q : any_in ks q = true ↔ ∃ k, k ∈ ks ∧ occurs k q.
Proof.
  unfold any_in. rewrite existsb_exists. split.
  - intros (k & Hk & H). exists k. split; [by apply list_elem_of_In | by apply isin_spec].
  - intros (k & Hk & H). exists k. split; [by apply list_elem_of_In | by apply isin_spec].
Qed.

Lemma tokens_run_end w :
  w ≠ [] → Forall (λ c, isspace c = false) w → tokens w = [w].
Proof.
  induction w as [|x w IH]; [done|]. intros _ Hw.
  inversion Hw as [|? ? Hx Hw']; subst. cbn [tokens]. rewrite Hx.
  destruct w as [|y w]; [done|].
  inversion Hw' as [|? ? Hy _]; subst. rewrite Hy, IH; done.
Qed.

Lemma tokens_run w c s :
  w ≠ [] → Forall (λ c, isspace c = false) w → isspace c = true →
  tokens (w ++ c :: s) = w :: tokens s.
Proof.
  intros Hne Hw Hc. induction w as [|x w IH]; [done|].
  inversion Hw as [|? ? Hx Hw']; subst.
  destruct w as [|y w].
  - simpl. by rewrite Hx, Hc.
  - inversion Hw' as [|? ? Hy _]; subst.
    change (tokens ((x :: y :: w) ++ c :: s))
      with (if isspace x then tokens ((y :: w) ++ c :: s)
            else if isspace y then [x] :: tokens ((y :: w) ++ c :: s)
            else match tokens ((y :: w) ++ c :: s) with
                 | t :: ts => (x :: t) :: ts
                 | [] => [[x]]
                 end).
    rewrite Hx, Hy, IH; done.
Qed.

Lemma re_split_ws_from_tokens s :
  (∀ cur, Forall (λ c, isspace c = false) cur →
     filter (λ w, nonempty w = true) (re_split_ws_from s cur false)
     = tokens (rev cur ++ s))
  ∧ filter (λ w, nonempty w = true) (re_split_ws_from s [] true) = tokens s.
Proof.
  induction s as [|c s [IHa IHb]].
  - split; [|done]. intros cur Hcur. simpl. rewrite app_nil_r.
    destruct cur as [|x cur]; [done|].
    rewrite tokens_run_end.
    + rewrite filter_cons_True; [done|]. simpl. by destruct (rev cur).
    + simpl. by destruct (rev cur).
    + by apply Forall_rev.
  - split.
    + intros cur Hcur. cbn [re_split_ws_from].
      destruct (isspace c) eqn:Hc.
      * destruct cur as [|x cur].
        -- simpl. rewrite Hc. rewrite filter_cons_False by done. apply IHb.
        -- rewrite tokens_run; [| |by apply Forall_rev|done].
           ++ rewrite filter_cons_True; [by rewrite IHb|].
              simpl. by destruct (rev cur).
           ++ simpl. by destruct (rev cur).
      * rewrite IHa by (constructor; done).
        simpl. by rewrite <- app_assoc.
    + cbn [re_split_ws_from]. destruct (isspace c) eqn:Hc.
      * rewrite IHb. simpl. by rewrite Hc.
      * apply (IHa [c]). by constructor.
Qed.

(** The words the classifier counts are the whitespace-separated tokens. *)
Lemma words_tokens s :
  filter (λ w, nonempty w = true) (re_split_ws s) = tokens s.
Proof. apply (proj1 (re_split_ws_from_tokens s) []). constructor. Qed.

(** ** Query classification *)

Section ClassifierFacts.
Context {RT : PyRuntime}.

(** C3. The classifier counts the whitespace-separated tokens of the
    stripped, lowercased query and decides in this order: at most six
    tokens give "banal" whatever the text contains; otherwise a complexity
    marker occurring in the lowercased query gives "complex"; otherwise
    twelve tokens or more give "complex"; otherwise "banal". *)
Theorem classify_query_order (query : pystr) :
  let q := lower (strip query) in
  let n := length (tokens q) in
  let marked := ∃ m, m ∈ complexity_markers ∧ occurs m q in
  (n ≤ 6 → _classify_query query = banal)
  ∧ (6 < n → marked → _classify_query query = complex)
  ∧ (6 < n → ¬ marked → 12 ≤ n → _classify_query query = complex)
  ∧ (6 < n → ¬ marked → n < 12 → _classify_query query = banal).
Proof.
  intros q n marked. unfold _classify_query. fold q.
  rewrite words_tokens. fold n.
  assert (Hm : any_in complexity_markers q = true ↔ marked) by apply any_in_spec.
  repeat split.
  - intros Hn. apply Nat.leb_le in Hn. by rewrite Hn.
  - intros Hn Hmk. apply Nat.leb_gt in Hn. rewrite Hn.
    apply Hm in Hmk. by rewrite Hmk.
  - intros Hn Hmk H12. apply Nat.leb_gt in Hn. rewrite Hn.
    destruct (any_in complexity_markers q); [done|].
    apply Nat.leb_le in H12. by rewrite H12.
  - intros Hn Hmk H12. apply Nat.leb_gt in Hn. rewrite Hn.
    destruct (any_in complexity_markers q) eqn:E; [by destruct Hmk; apply Hm|].
    apply Nat.leb_gt in H12. by rewrite H12.
Qed.

(** C5. A deep-intent keyword in the lowercased query gives "deep", also
    when a simple-intent keyword occurs too; "simple" is returned exactly
    when no deep-intent keyword occurs and a simple-intent keyword does;
    nothing is returned exactly when neither set matches. *)
Theorem explicit_depth_intent_priority (query : pystr) :
  let q := lower query in
  let has_deep := ∃ k, k ∈ deep_keywords ∧ occurs k q in
  let has_simple := ∃ k, k ∈ simple_keywords ∧ occurs k q in
  (_explicit_depth_intent query = Some deep ↔ has_deep)
  ∧ (_explicit_depth_intent query = Some simple ↔ ¬ has_deep ∧ has_simple)
  ∧ (_explicit_depth_intent query = None ↔ ¬ has_deep ∧ ¬ has_simple).
Proof.
  intros q has_deep has_simple. unfold _explicit_depth_intent. fold q.
  assert (Hd : any_in deep_keywords q = true ↔ has_deep) by apply any_in_spec.
  assert (Hs : any_in simple_keywords q = true ↔ has_simple) by apply any_in_spec.
  assert (Hd' : any_in deep_keywords q = false → ¬ has_deep).
  { intros E Hx. apply Hd in Hx. congruence. }
  assert (Hs' : any_in simple_keywords q = false → ¬ has_simple).
  { intros E Hx. apply Hs in Hx. congruence. }
  destruct (any_in deep_keywords q), (any_in simple_keywords q);
    (split; [|split]); split; try done; try tauto;
    try (intros [? ?]; exfalso; tauto); intros; exfalso; tauto.
Qed.

End ClassifierFacts.

Lemma classify_query_order_witness :
  _classify_query (RT := table_runtime []) (u "porównaj wady i zalety X i Y") = complex.
Proof.
  destruct (classify_query_order (RT := table_runtime [])
              (u "porównaj wady i zalety X i Y")) as (_ & H & _).
  apply H.
  - vm_compute. lia.
  - exists (u "wady"). split.
    + apply list_elem_of_In. vm_compute. tauto.
    + apply isin_spec. vm_compute. reflexivity.
Defined.

Lemma explicit_depth_intent_priority_witness :
  _explicit_depth_intent (RT := table_runtime []) (u "szybko, ale deep research") = Some deep.
Proof.
  destruct (explicit_depth_intent_priority (RT := table_runtime [])
              (u "szybko, ale deep research")) as (H & _).
  apply H. exists (u "deep"). split.
  - apply list_elem_of_In. vm_compute. tauto.
  - apply isin_spec. vm_compute. reflexivity.
Defined.

(** ** Version range *)

Section RangeFacts.
Context {RT : PyRuntime}.

Lemma match_minor_at_Some s m len :
  match_minor_at s = Some (m, len) →
  ∃ d1 d2 v1 v2 b,
    s = [ch "0"; ch "."; d1; d2] ++ b
    ∧ decimal d1 = Some v1 ∧ decimal d2 = Some v2 ∧ m = (10 * v1 + v2)%Z
    ∧ len = (4 + opt_patch_len b)%nat.
Proof.
  unfold match_minor_at.
  destruct s as [|c0 [|c1 [|d1 [|d2 r]]]]; try done.
  destruct (c0 =? ch "0")%N eqn:E0; [|done].
  destruct (c1 =? ch ".")%N eqn:E1; [|done]. simpl.
  apply N.eqb_eq in E0, E1. subst c0 c1.
  destruct (decimal d1) as [v1|] eqn:D1; [|done].
  destruct (decimal d2) as [v2|] eqn:D2; [|done].
  intros [= <- <-]. by exists d1, d2, v1, v2, r.
Qed.

Lemma match_minor_at_head d1 d2 v1 v2 b :
  decimal d1 = Some v1 → decimal d2 = Some v2 →
  match_minor_at ([ch "0"; ch "."; d1; d2] ++ b)
  = Some ((10 * v1 + v2)%Z, (4 + opt_patch_len b)%nat).
Proof. intros H1 H2. simpl. by rewrite H1, H2. Qed.

Lemma minor_occurs_cons m c s : minor_occurs m s → minor_occurs m (c :: s).
Proof.
  intros (a & b & d1 & d2 & v1 & v2 & -> & H).
  by exists (c :: a), b, d1, d2, v1, v2.
Qed.

Lemma finditer_minors_sound s skip m :
  m ∈ finditer_minors s skip → minor_occurs m s.
Proof.
  revert skip. induction s as [|c s IH]; intros skip; [by intros ?%elem_of_nil|].
  cbn [finditer_minors]. destruct skip as [|k].
  - destruct (match_minor_at (c :: s)) as [[m0 len]|] eqn:E.
    + intros [->|Hin]%elem_of_cons.
      * apply match_minor_at_Some in E as (d1 & d2 & v1 & v2 & b & Hs & H1 & H2 & Hm & _).
        exists [], b, d1, d2, v1, v2. by rewrite Hs.
      * apply minor_occurs_cons. eauto.
    + intros Hin. apply minor_occurs_cons. eauto.
  - intros Hin. apply minor_occurs_cons. eauto.
Qed.

Lemma finditer_minors_complete s skip m :
  finditer_minors s skip = [] → ¬ minor_occurs m (drop skip s).
Proof.
  revert skip. induction s as [|c s IH]; intros skip.
  - intros _ (a & b & d1 & d2 & v1 & v2 & H & _).
    rewrite drop_nil in H. by destruct a.
  - cbn [finditer_minors]. destruct skip as [|k]; [|apply IH].
    destruct (match_minor_at (c :: s)) as [[m0 len]|] eqn:E; [done|].
    intros Hs (a & b & d1 & d2 & v1 & v2 & H & H1 & H2 & Hm).
    rewrite drop_0 in H. destruct a as [|x a].
    + change (c :: s = [ch "0"; ch "."; d1; d2] ++ b) in H.
      rewrite H, (match_minor_at_head _ _ _ _ _ H1 H2) in E. done.
    + injection H as -> ->.
      apply (IH 0%nat Hs). rewrite drop_0. by exists a, b, d1, d2, v1, v2.
Qed.

Lemma list_min_spec x xs :
  list_min x xs ∈ x :: xs ∧ ∀ y, y ∈ x :: xs → (list_min x xs ≤ y)%Z.
Proof.
  unfold list_min. revert x. induction xs as [|z xs IH]; intros x; simpl.
  - split; [by left|]. intros y ->%list_elem_of_singleton. lia.
  - destruct (IH (Z.min x z)) as [Hin Hle]. split.
    + apply elem_of_cons in Hin as [->|Hin].
      * destruct (Z.min_spec x z) as [[_ ->]|[_ ->]]; [by left | by right; left].
      * by do 2 right.
    + intros y Hy. pose proof (Hle (Z.min x z) ltac:(by left)) as H0.
      apply elem_of_cons in Hy as [Hy|Hy]; [subst y; lia|].
      apply elem_of_cons in Hy as [Hy|Hy]; [subst y; lia|].
      apply Hle. by right.
Qed.

Lemma list_max_spec x xs :
  list_max x xs ∈ x :: xs ∧ ∀ y, y ∈ x :: xs → (y ≤ list_max x xs)%Z.
Proof.
  unfold list_max. revert x. induction xs as [|z xs IH]; intros x; simpl.
  - split; [by left|]. intros y ->%list_elem_of_singleton. lia.
  - destruct (IH (Z.max x z)) as [Hin Hle]. split.
    + apply elem_of_cons in Hin as [->|Hin].
      * destruct (Z.max_spec x z) as [[_ ->]|[_ ->]]; [by right; left | by left].
      * by do 2 right.
    + intros y Hy. pose proof (Hle (Z.max x z) ltac:(by left)) as H0.
      apply elem_of_cons in Hy as [Hy|Hy]; [subst y; lia|].
      apply elem_of_cons in Hy as [Hy|Hy]; [subst y; lia|].
      apply Hle. by right.
Qed.


End RangeFacts.


(** A "0.NN" that begins inside the patch of an earlier match is part of
    that match and is not reported on its own. *)
Example range_patch_consumed :
  _extract_codex_cli_range (RT := table_runtime []) (u "codex cli 0.10.25")
  = Some (10, 10)%Z.
Proof. vm_compute. reflexivity. Qed.

(** ** Bullets of a release body *)

Lemma bullets_loop_cons limit line rest acc :
  bullets_loop limit (line :: rest) acc
  = match bullet_item line with
    | Some item =>
        if (limit <=? Z.of_nat (length (acc ++ [item])))%Z then acc ++ [item]
        else bullets_loop limit rest (acc ++ [item])
    | None => bullets_loop limit rest acc
    end.
Proof.
  cbn [bullets_loop]. unfold bullet_item. cbv zeta.
  destruct (strip line) as [|c s] eqn:Es; [reflexivity|].
  change (negb (nonempty (c :: s))) with false. cbv iota.
  destruct (startswith (u "-") (c :: s) || startswith (u "*") (c :: s)); [|reflexivity].
  destruct (nonempty (strip (lstrip_chars bullet_chars (c :: s)))); reflexivity.
Qed.

Lemma bullets_loop_spec limit lines acc :
  (Z.of_nat (length acc) < limit)%Z →
  bullets_loop limit lines acc
  = take (Z.to_nat limit) (acc ++ omap bullet_item lines).
Proof.
  revert acc. induction lines as [|line rest IH]; intros acc Hacc.
  - simpl. rewrite app_nil_r, take_ge; [done|lia].
  - rewrite bullets_loop_cons.
    change (omap bullet_item (line :: rest))
      with (match bullet_item line with
            | Some y => y :: omap bullet_item rest
            | None => omap bullet_item rest
            end).
    destruct (bullet_item line) as [item|]; [|by apply IH].
    rewrite length_app. simpl length.
    destruct (limit <=? Z.of_nat (length acc + 1))%Z eqn:El.
    + apply Z.leb_le in El.
      replace (acc ++ item :: omap bullet_item rest)
        with ((acc ++ [item]) ++ omap bullet_item rest) by (by rewrite <- app_assoc).
      rewrite take_app_length'; [done|]. rewrite length_app. simpl. lia.
    + apply Z.leb_gt in El. rewrite IH.
      * by rewrite <- app_assoc.
      * rewrite length_app. simpl. lia.
Qed.

Section BulletFacts.
Context {RT : PyRuntime}.

Lemma head_ne_neq (a b : pystr) : hd 0%N a ≠ hd 0%N b → a ≠ b.
Proof. congruence. Qed.


End BulletFacts.

Example bullets_of_fifteen :
  _summarize_bullets_from_markdown
    (join nl (map (λ i, u "- item " ++ str_of_int i) (seqZ 1 15))) 8
  = map (λ i, u "item " ++ str_of_int i) (seqZ 1 8).
Proof. vm_compute. reflexivity. Qed.

(** Marker-only lines (a rule such as "---") contribute no bullet, and all
    leading markers are removed from the item. *)
Example bullets_marker_only :
  _summarize_bullets_from_markdown (u "---" ++ nl ++ u "  ** bold** text " ++ nl ++ u "plain") 8
  = [u "bold** text"].
Proof. vm_compute. reflexivity. Qed.


(** ** Missing minors in the changelog report *)

Lemma StronglySorted_seqZ m n : StronglySorted Z.lt (seqZ m n).
Proof.
  destruct (decide (n ≤ 0)%Z) as [Hn|Hn]; [rewrite seqZ_nil by done; constructor|].
  rewrite <- (Z2Nat.id n) by lia. generalize (Z.to_nat n). clear n Hn.
  intros k. revert m. induction k as [|k IH]; intros m.
  - rewrite seqZ_nil by done. constructor.
  - rewrite seqZ_cons by lia.
    replace (Z.pred (Z.of_nat (S k))) with (Z.of_nat k) by lia.
    constructor; [apply IH|].
    apply Forall_forall. intros y Hy%elem_of_seqZ. lia.
Qed.

Lemma StronglySorted_filter {A} (R : relation A) (P : A → Prop)
  `{∀ x, Decision (P x)} (l : list A) :
  StronglySorted R l → StronglySorted R (filter P l).
Proof.
  induction 1 as [|x l Hl IH Hx]; [constructor|].
  rewrite filter_cons. destruct (decide (P x)); [|done].
  constructor; [done|].
  apply Forall_forall. intros y [_ Hy]%list_elem_of_filter.
  by eapply Forall_forall in Hx.
Qed.

Lemma filter_none {A} (P : A → Prop) `{∀ x, Decision (P x)} (l : list A) :
  Forall (λ x, ¬ P x) l → filter P l = [].
Proof.
  induction 1 as [|x l Hx _ IH]; [done|]. by rewrite filter_cons_False.
Qed.

Lemma startswith_head_ne p l :
  p ≠ [] → hd 0%N l ≠ hd 0%N p → startswith p l = false.
Proof.
  destruct p as [|a p], l as [|b l]; simpl; try done.
  intros _ Hne. destruct (N.eqb_spec a b); [congruence | done].
Qed.

Lemma not_note_line_head l : hd 0%N l ≠ 66%N → ¬ is_note_line l.
Proof.
  intros Hc. unfold is_note_line. rewrite startswith_head_ne; [done| |].
  - intros E. vm_compute in E. discriminate.
  - replace (hd 0%N note_prefix) with 66%N by (vm_compute; reflexivity). done.
Qed.

Ltac head_differs := apply not_note_line_head; lazy; discriminate.

Section ReportFacts.
Context {RT : PyRuntime}.

Lemma missing_note_is_note missing : is_note_line (missing_note missing).
Proof.
  unfold is_note_line, missing_note, note_prefix. apply startswith_spec.
  eexists. reflexivity.
Qed.

Lemma release_block_no_note minor r :
  Forall (λ l, ¬ is_note_line l) (release_block minor r).
Proof.
  unfold release_block. cbv zeta.
  apply Forall_app. split; [|apply Forall_app; split].
  - constructor; [|constructor]. head_differs.
  - destruct (nonempty_list _).
    + apply Forall_forall. intros l (b & -> & _)%list_elem_of_fmap.
      head_differs.
    + constructor; [|constructor]. head_differs.
  - constructor; [head_differs|].
    constructor; [head_differs|constructor].
Qed.


End ReportFacts.

(** ** The structured plan *)

Lemma drop_while_app p pre c rest :
  Forall (λ x, p x = true) pre → p c = false →
  drop_while p (pre ++ c :: rest) = c :: rest.
Proof.
  induction 1 as [|x pre Hx _ IH]; intros Hc; simpl.
  - by rewrite Hc.
  - rewrite Hx. by apply IH.
Qed.

Lemma drop_while_cons p s c rest :
  drop_while p s = c :: rest →
  ∃ pre, s = pre ++ c :: rest ∧ Forall (λ x, p x = true) pre ∧ p c = false.
Proof.
  induction s as [|x s IH]; [done|]. simpl.
  destruct (p x) eqn:Hx.
  - intros (pre & -> & Hpre & Hc)%IH. exists (x :: pre). split; [done|].
    split; [by constructor|done].
  - intros [= -> ->]. exists []. split; [done|]. split; [constructor|done].
Qed.

Lemma drop_while_nil p s :
  drop_while p s = [] → Forall (λ x, p x = true) s.
Proof.
  induction s as [|x s IH]; [constructor|]. simpl.
  destruct (p x) eqn:Hx; [|done]. intros H. constructor; auto.
Qed.

Lemma brace_scan_Some s d seen chunk :
  (0 < d)%Z → brace_scan s d seen = Some chunk →
  ∃ taken rest,
    s = taken ++ rest ∧ chunk = rev seen ++ taken
    ∧ (d + brace_depth taken = 0)%Z
    ∧ ∀ k, (k < length taken)%nat → (0 < d + brace_depth (take k taken))%Z.
Proof.
  revert d seen. induction s as [|c s IH]; intros d seen Hd; [done|].
  cbn [brace_scan].
  assert (Hstep : ∀ d' , (0 < d')%Z → (d' = d + brace_weight c)%Z →
            brace_scan s d' (c :: seen) = Some chunk →
            ∃ taken rest, c :: s = taken ++ rest ∧ chunk = rev seen ++ taken
              ∧ (d + brace_depth taken = 0)%Z
              ∧ ∀ k, (k < length taken)%nat → (0 < d + brace_depth (take k taken))%Z).
  { intros d' Hd' Ed' (taken & rest & -> & -> & H0 & Hpre)%IH; [|done].
    exists (c :: taken), rest. split; [done|]. split.
    { simpl. by rewrite <- app_assoc. }
    split; [simpl; lia|].
    intros [|k] Hk; simpl in *; [lia|].
    specialize (Hpre k ltac:(lia)). lia. }
  unfold brace_weight in Hstep.
  destruct (c =? 123)%N eqn:E1.
  - apply Hstep; lia.
  - destruct (c =? 125)%N eqn:E2.
    + destruct (d - 1 =? 0)%Z eqn:E0.
      * intros [= <-]. apply Z.eqb_eq in E0.
        exists [c], s. split; [done|]. split; [done|].
        unfold brace_depth, brace_weight. simpl. rewrite E1, E2.
        split; [lia|]. intros [|k] Hk; simpl in *; lia.
      * apply Z.eqb_neq in E0. apply Hstep; lia.
    + apply Hstep; lia.
Qed.

Lemma brace_scan_complete taken rest d seen :
  (0 < d)%Z → (d + brace_depth taken = 0)%Z →
  (∀ k, (k < length taken)%nat → (0 < d + brace_depth (take k taken))%Z) →
  brace_scan (taken ++ rest) d seen = Some (rev seen ++ taken).
Proof.
  revert d seen. induction taken as [|c t IH]; intros d seen Hd H0 Hpre.
  { simpl in H0. lia. }
  assert (Hstep : ∀ d', (0 < d')%Z → (d' = d + brace_weight c)%Z →
            brace_scan (t ++ rest) d' (c :: seen) = Some (rev seen ++ c :: t)).
  { intros d' Hd' Ed'. rewrite IH; [|done| |].
    - simpl. by rewrite <- app_assoc.
    - simpl in H0. lia.
    - intros k Hk. specialize (Hpre (S k) ltac:(simpl; lia)). simpl in Hpre. lia. }
  cbn [app brace_scan]. unfold brace_weight in Hstep.
  destruct (c =? 123)%N eqn:E1.
  - apply Hstep; lia.
  - destruct (c =? 125)%N eqn:E2.
    + destruct (d - 1 =? 0)%Z eqn:E0.
      * apply Z.eqb_eq in E0. destruct t as [|c' t]; [done|].
        specialize (Hpre 1%nat ltac:(simpl; lia)).
        unfold brace_depth, brace_weight in Hpre. simpl in Hpre.
        rewrite E1, E2 in Hpre. lia.
      * apply Z.eqb_neq in E0. apply Hstep; lia.
    + apply Hstep; lia.
Qed.

Lemma str_eqb_eq a b : str_eqb a b = true ↔ a = b.
Proof. unfold str_eqb. apply bool_decide_eq_true. Qed.

Lemma dict_get_app k d d' :
  dict_get k (d ++ d')
  = match dict_get k d with Some v => Some v | None => dict_get k d' end.
Proof.
  induction d as [|[k' v] d IH]; [done|]. simpl.
  by destruct (str_eqb k k').
Qed.

Lemma dict_get_setdefault k k' v d :
  dict_get k (setdefault k' v d)
  = match dict_get k d with
    | Some x => Some x
    | None => if str_eqb k k' then Some v else None
    end.
Proof.
  unfold setdefault. destruct (dict_get k' d) as [x|] eqn:E.
  - destruct (dict_get k d) eqn:E'; [done|].
    destruct (str_eqb k k') eqn:Ek; [|done].
    apply str_eqb_eq in Ek. congruence.
  - rewrite dict_get_app. simpl. by destruct (dict_get k d).
Qed.

Section PlanFacts.
Context {RT : PyRuntime}.

Lemma extract_first_json_object_spec text d :
  _extract_first_json_object text = Some d
  ↔ ∃ pre chunk post,
      text = pre ++ chunk ++ post ∧ (123%N ∉ pre) ∧ first_balanced chunk
      ∧ json_loads chunk = Loaded (JDict d).
Proof.
  unfold _extract_first_json_object. split.
  - destruct (drop_while _ text) as [|c s] eqn:Edrop; [done|].
    apply drop_while_cons in Edrop as (pre & -> & Hpre & Hc).
    apply negb_false_iff, N.eqb_eq in Hc. subst c.
    change (brace_scan (123%N :: s) 0 []) with (brace_scan s 1 [123%N]).
    destruct (brace_scan s 1 [123%N]) as [chunk|] eqn:Escan; [|done].
    apply brace_scan_Some in Escan as (taken & rest & -> & -> & H0 & Hp); [|lia].
    destruct (json_loads _) as [[| | | | | |d']| |] eqn:El; try done.
    intros [= ->]. exists pre, (123%N :: taken), rest.
    split; [done|]. split.
    { intros Hin. eapply Forall_forall in Hpre; [|done].
      simpl in Hpre. done. }
    split; [|done]. split; [eauto|]. split.
    { unfold brace_depth in *. simpl. unfold brace_weight at 1. simpl. lia. }
    intros [|k] [Hk1 Hk2]; [lia|]. simpl in *.
    specialize (Hp k ltac:(lia)).
    unfold brace_depth in *. simpl. unfold brace_weight at 1. simpl. lia.
  - intros (pre & chunk & post & -> & Hpre & ([body ->] & H0 & Hp) & Hl).
    change ((123%N :: body) ++ post) with (123%N :: body ++ post).
    rewrite drop_while_app; [| |done].
    2:{ apply Forall_forall. intros x Hx. apply negb_true_iff, N.eqb_neq.
        intros ->. done. }
    change (brace_scan (123%N :: body ++ post) 0 [])
      with (brace_scan (body ++ post) 1 [123%N]).
    rewrite brace_scan_complete.
    + simpl. by rewrite Hl.
    + lia.
    + unfold brace_depth in *. simpl in H0. unfold brace_weight at 1 in H0.
      simpl in H0. lia.
    + intros k Hk. specialize (Hp (S k) ltac:(simpl; lia)).
      unfold brace_depth in *. simpl in Hp. unfold brace_weight at 1 in Hp.
      simpl in Hp. lia.
Qed.

(** C1. Whatever the reply text, the plan is a dictionary holding the three
    keys. The object taken from the text is the first brace-balanced chunk
    (found by counting depth from the first opening brace), provided it
    decodes to a JSON object; with no such chunk, or when decoding fails,
    the plan is the empty object with the three defaults. Fields the object
    has are kept, missing ones among the three are the empty list. Once the
    reply text is at hand, the function returns this plan: nothing after
    the request can fail. *)
Theorem plan_of_content_total (content : pystr) :
  let plan := plan_of_content content in
  (∀ k, k ∈ plan_keys → is_Some (dict_get k plan))
  ∧ (∀ d, _extract_first_json_object content = Some d
          ↔ ∃ pre chunk post,
              content = pre ++ chunk ++ post ∧ (123%N ∉ pre) ∧ first_balanced chunk
              ∧ json_loads chunk = Loaded (JDict d))
  ∧ (_extract_first_json_object content = None → plan = empty_plan)
  ∧ (∀ d, _extract_first_json_object content = Some d →
       (∀ k v, dict_get k d = Some v → dict_get k plan = Some v)
       ∧ (∀ k, k ∈ plan_keys → dict_get k d = None → dict_get k plan = Some (JList []))
       ∧ (∀ k, k ∉ plan_keys → dict_get k plan = dict_get k d))
  ∧ (∀ urlopen api_key model query lang n t data t',
       _request urlopen api_key (web_payload model n (plan_prompt query lang)) t
       = (Normal data, t') →
       schema_content data = Some content →
       _openrouter_web_search_json_plan urlopen api_key model query lang n t
       = (Normal plan, t')).
Proof.
  intros plan.
  assert (Hkeys : ∀ k, k ∈ plan_keys →
            k = u "tldr_bullets" ∨ k = u "sources" ∨ k = u "followup_queries").
  { intros k Hk. unfold plan_keys in Hk. set_solver. }
  assert (Hget : ∀ obj k,
            dict_get k (setdefault (u "followup_queries") (JList [])
                          (setdefault (u "sources") (JList [])
                             (setdefault (u "tldr_bullets") (JList []) obj)))
            = match dict_get k obj with
              | Some v => Some v
              | None => if bool_decide (k ∈ plan_keys) then Some (JList []) else None
              end).
  { intros obj k. rewrite !dict_get_setdefault.
    destruct (dict_get k obj); [done|].
    unfold str_eqb, plan_keys.
    repeat case_bool_decide; try done; set_solver. }
  split; [|split; [|split; [|split]]].
  - intros k Hk. unfold plan, plan_of_content. rewrite Hget.
    destruct (dict_get k _); [done|]. by rewrite bool_decide_eq_true_2.
  - intros d. apply extract_first_json_object_spec.
  - intros E. unfold plan, plan_of_content. by rewrite E.
  - intros d E. unfold plan, plan_of_content. rewrite E.
    assert (Hobj : ∀ k, dict_get k (if truthy (JDict d) then d else []) = dict_get k d).
    { intros k. by destruct d. }
    split; [|split].
    + intros k v Hk. by rewrite Hget, Hobj, Hk.
    + intros k Hk Hn. by rewrite Hget, Hobj, Hn, bool_decide_eq_true_2.
    + intros k Hk. rewrite Hget, Hobj. destruct (dict_get k d); [done|].
      by rewrite bool_decide_eq_false_2.
  - intros urlopen api_key model query lang n t data t' Hreq Hschema.
    unfold _openrouter_web_search_json_plan, bind. by rewrite Hreq, Hschema.
Qed.

End PlanFacts.

(** ** Merging sources *)

Section MergeFacts.
Context {RT : PyRuntime}.

Lemma candidate_url s c : candidate s = Some c → url c ≠ [].
Proof.
  destruct s; try done. simpl.
  destruct (strip (py_str (get_or (u "url") d (JStr [])))) eqn:E; [done|].
  simpl. by intros [= <-].
Qed.

Lemma first_by_url_equiv seen1 seen2 cs :
  (∀ x, x ∈ seen1 ↔ x ∈ seen2) → first_by_url seen1 cs = first_by_url seen2 cs.
Proof.
  revert seen1 seen2. induction cs as [|c cs IH]; intros s1 s2 Heq; [done|].
  simpl. rewrite (bool_decide_ext _ _ (Heq (url c))).
  case_bool_decide; [by apply IH|]. f_equal. apply IH.
  intros x. rewrite !elem_of_cons. by rewrite Heq.
Qed.

Lemma first_by_url_app seen cs1 cs2 :
  first_by_url seen (cs1 ++ cs2)
  = first_by_url seen cs1
    ++ first_by_url (map url (first_by_url seen cs1) ++ seen) cs2.
Proof.
  revert seen. induction cs1 as [|c cs1 IH]; intros seen; [done|].
  simpl. case_bool_decide; [apply IH|].
  simpl. f_equal. rewrite IH. f_equal. apply first_by_url_equiv.
  intros x. rewrite !elem_of_app, !elem_of_cons, elem_of_app. tauto.
Qed.

Lemma first_by_url_fresh seen cs c :
  c ∈ first_by_url seen cs → (url c ∉ seen) ∧ c ∈ cs.
Proof.
  revert seen. induction cs as [|c' cs IH]; intros seen; simpl; [by intros ?%elem_of_nil|].
  case_bool_decide as Hc.
  - intros [? ?]%IH. split; [done|by right].
  - intros [->|[Hn ?]%IH]%elem_of_cons; [split; [done|by left]|].
    split; [|by right]. intros ?. apply Hn. by right.
Qed.

Lemma first_by_url_NoDup seen cs : NoDup (map url (first_by_url seen cs)).
Proof.
  revert seen. induction cs as [|c cs IH]; intros seen; simpl; [constructor|].
  case_bool_decide; [apply IH|]. simpl. apply NoDup_cons. split; [|apply IH].
  intros Hin. apply list_elem_of_In, in_map_iff in Hin as (c' & Hu & Hc').
  apply list_elem_of_In, first_by_url_fresh in Hc' as [Hn _].
  apply Hn. rewrite Hu. by left.
Qed.

Lemma first_by_url_covers seen cs c :
  c ∈ cs → url c ∈ seen ∨ url c ∈ map url (first_by_url seen cs).
Proof.
  revert seen. induction cs as [|c' cs IH]; intros seen; [by intros ?%elem_of_nil|].
  simpl. intros [->|Hin]%elem_of_cons.
  - case_bool_decide; [by left|]. right. by left.
  - case_bool_decide; [by apply IH|].
    destruct (IH (url c' :: seen) Hin) as [[->|?]%elem_of_cons|?].
    + right. by left.
    + by left.
    + right. by right.
Qed.

Lemma first_by_url_sublist seen cs : first_by_url seen cs `sublist_of` cs.
Proof.
  revert seen. induction cs as [|c cs IH]; intros seen; simpl; [constructor|].
  case_bool_decide; [by apply sublist_cons|by apply sublist_skip].
Qed.

Lemma first_by_url_first seen cs r :
  r ∈ first_by_url seen cs →
  ∃ pre post, cs = pre ++ r :: post ∧ url r ∉ map url pre.
Proof.
  revert seen. induction cs as [|c cs IH]; intros seen; simpl; [by intros ?%elem_of_nil|].
  case_bool_decide as Hc.
  - intros Hin. pose proof (first_by_url_fresh _ _ _ Hin) as [Hn _].
    apply IH in Hin as (pre & post & -> & Hpre). exists (c :: pre), post.
    split; [done|]. simpl. intros [E|?]%elem_of_cons; [|done]. congruence.
  - intros [->|Hin]%elem_of_cons.
    + exists [], cs. split; [done|]. by intros ?%elem_of_nil.
    + pose proof (first_by_url_fresh _ _ _ Hin) as [Hn _].
      apply IH in Hin as (pre & post & -> & Hpre). exists (c :: pre), post.
      split; [done|]. simpl. intros [E|?]%elem_of_cons; [|done].
      apply Hn. rewrite E. by left.
Qed.

Lemma ends_with_app {A} (x y z : list A) :
  (∃ i, y = i ++ z) → ∃ i, x ++ y = i ++ z.
Proof. intros [i ->]. exists (x ++ i). by rewrite app_assoc. Qed.

Lemma merge_one_candidate (s : json) (acc : list source) (seen : gset (list N)) :
  merge_one s (acc, seen)
  = match candidate s with
    | Some c => if bool_decide (url c ∈ seen) then (acc, seen)
                else (acc ++ [c], {[ url c ]} ∪ seen)
    | None => (acc, seen)
    end.
Proof.
  destruct s; try done. unfold merge_one, candidate. cbv zeta.
  destruct (strip (py_str (get_or (u "url") d (JStr [])))) as [|x w]; [done|].
  cbn [nonempty negb orb fst snd url]. by case_bool_decide.
Qed.

Lemma foldl_merge_one (items : list json) (acc : list source)
  (seen : gset (list N)) (seenl : list pystr) :
  (∀ x, x ∈ seen ↔ x ∈ seenl) →
  let kept := first_by_url seenl (omap candidate items) in
  foldl (λ st s, merge_one s st) (acc, seen) items
  = (acc ++ kept, list_to_set (map url kept) ∪ seen).
Proof.
  revert acc seen seenl. induction items as [|s items IH]; intros acc seen seenl Heq.
  - simpl. f_equal; [by rewrite app_nil_r | set_solver].
  - cbn [foldl]. rewrite merge_one_candidate.
    change (omap candidate (s :: items))
      with (match candidate s with
            | Some c => c :: omap candidate items
            | None => omap candidate items
            end).
    destruct (candidate s) as [c|]; [|by apply IH].
    cbn [first_by_url]. rewrite (bool_decide_ext _ _ (Heq (url c))).
    case_bool_decide as Hc; [by apply IH|].
    rewrite (IH _ _ (url c :: seenl)).
    + cbv zeta. f_equal; [by rewrite <- app_assoc|].
      simpl. set_solver.
    + intros x. rewrite elem_of_cons, elem_of_union, elem_of_singleton, Heq. done.
Qed.


End MergeFacts.

(** ** The program as a whole *)

Lemma succeeds_ret {A} (P : A → Prop) (a : A) : P a → succeeds_with P (ret a).
Proof. intros Ha t. by exists a, t. Qed.

Lemma succeeds_bind {A B} (P : A → Prop) (Q : B → Prop) (c : M A) (k : A → M B) :
  succeeds_with P c → (∀ a, P a → succeeds_with Q (k a)) →
  succeeds_with Q (bind c k).
Proof.
  intros Hc Hk t. destruct (Hc t) as (a & t' & E & Ha).
  destruct (Hk a Ha t') as (b & t'' & E' & Hb).
  exists b, t''. unfold bind. by rewrite E.
Qed.

Lemma stdout_of_snoc t e :
  stdout_of (t ++ [e])
  = stdout_of t ++ match e with Stdout text => [text] | _ => [] end.
Proof. unfold stdout_of. rewrite omap_app. by destruct e. Qed.

Lemma posts_snoc t e :
  filter is_post (t ++ [e]) = filter is_post t ++ (if is_post e then [e] else []).
Proof. rewrite filter_app. by destruct e. Qed.

Section ProgramFacts.
Context {RT : PyRuntime}.
Variable urlopen : list event → reply.
Variable environ_api_key : option pystr.

Lemma http_get_json_run url headers t :
  _http_get_json urlopen url headers t
  = let t' := t ++ [HttpGet url headers] in
    match urlopen t' with
    | NetHTTPError code raw =>
        (Raised (SystemExit 2),
         t' ++ [Stderr (u "HTTP error: " ++ str_of_int code ++ nl ++ raw)])
    | NetFailed e =>
        (Raised (SystemExit 2), t' ++ [Stderr (u "HTTP request failed: " ++ e)])
    | NetBody raw =>
        match json_loads raw with
        | Loaded j => (Normal j, t')
        | JSONDecodeError =>
            (Raised (SystemExit 2), t' ++ [Stderr (u "Non-JSON response:" ++ nl ++ raw)])
        | RecursionError => (Raised Recursion, t')
        end
    end.
Proof.
  unfold _http_get_json, send, bind, emit. cbv zeta.
  destruct (urlopen _); [done|done|]. by destruct (json_loads raw).
Qed.

Lemma request_run api_key payload t :
  _request urlopen api_key payload t
  = let t' := t ++ [HttpPost OPENROUTER_URL
                      [ (u "Authorization", u "Bearer " ++ api_key);
                        (u "Content-Type", u "application/json") ] payload] in
    match urlopen t' with
    | NetHTTPError code raw =>
        (Raised (SystemExit 2),
         t' ++ [Stderr (u "OpenRouter HTTP error: " ++ str_of_int code ++ nl ++ raw)])
    | NetFailed e =>
        (Raised (SystemExit 2), t' ++ [Stderr (u "OpenRouter request failed: " ++ e)])
    | NetBody raw =>
        match json_loads raw with
        | Loaded j => (Normal j, t')
        | JSONDecodeError =>
            (Raised (SystemExit 2),
             t' ++ [Stderr (u "OpenRouter returned non-JSON response:" ++ nl ++ raw)])
        | RecursionError => (Raised Recursion, t')
        end
    end.
Proof.
  unfold _request, send, bind, emit. cbv zeta.
  destruct (urlopen _); [done|done|]. by destruct (json_loads raw).
Qed.

(** The short-circuit prints nothing and never calls the chat endpoint. *)
Lemma changelog_trace q l t o t' :
  _maybe_codex_cli_changelog_tldr urlopen q l t = (o, t') →
  stdout_of t' = stdout_of t ∧ filter is_post t' = filter is_post t.
Proof.
  unfold _maybe_codex_cli_changelog_tldr.
  destruct (negb _ || negb _); [by intros [= <- <-]|].
  destruct (_extract_codex_cli_range q) as [[lo hi]|]; [|by intros [= <- <-]].
  destruct (hi <? lo)%Z; [by intros [= <- <-]|].
  unfold bind. rewrite http_get_json_run. cbv zeta.
  assert (H1 : stdout_of (t ++ [HttpGet GITHUB_RELEASES_API changelog_headers]) = stdout_of t
               ∧ filter is_post (t ++ [HttpGet GITHUB_RELEASES_API changelog_headers])
                 = filter is_post t).
  { by rewrite stdout_of_snoc, posts_snoc, !app_nil_r. }
  assert (H2 : ∀ m,
            stdout_of ((t ++ [HttpGet GITHUB_RELEASES_API changelog_headers]) ++ [Stderr m])
            = stdout_of t
            ∧ filter is_post
                ((t ++ [HttpGet GITHUB_RELEASES_API changelog_headers]) ++ [Stderr m])
              = filter is_post t).
  { intros m. destruct H1 as [E1 E2].
    by rewrite stdout_of_snoc, posts_snoc, E1, E2, !app_nil_r. }
  destruct (urlopen _) as [e|code raw|raw].
  - intros [= <- <-]. apply H2.
  - intros [= <- <-]. apply H2.
  - destruct (json_loads raw) as [data| |].
    + destruct data; try (by intros [= <- <-]).
      destruct (bool_decide _); by intros [= <- <-].
    + intros [= <- <-]. apply H2.
    + by intros [= <- <-].
Qed.

Lemma collect_releases_none lo hi rs :
  (∀ r, r ∈ rs → release_minor lo hi r = None) → collect_releases lo hi rs = ∅.
Proof.
  unfold collect_releases. generalize (∅ : gmap Z pydict).
  induction rs as [|r rs IH]; intros m Hrs; [done|].
  cbn [foldl]. rewrite (Hrs r) by (by left). apply IH.
  intros r' Hr'. apply Hrs. by right.
Qed.

End ProgramFacts.

Section ProgramHelpers.
Context {RT : PyRuntime}.

Lemma extract_range_ordered query lo hi :
  _extract_codex_cli_range query = Some (lo, hi) → (lo ≤ hi)%Z.
Proof.
  unfold _extract_codex_cli_range.
  destruct (finditer_minors query 0) as [|m ms]; [done|]. intros [= <- <-].
  destruct (list_min_spec m ms) as [_ Hle], (list_max_spec m ms) as [_ Hge].
  specialize (Hle m ltac:(by left)). specialize (Hge m ltac:(by left)). lia.
Qed.

Lemma merged_sources_is_Some step1 step2 step3 :
  is_Some (py_iter (get_or (u "sources") step1 (JList []))) →
  is_Some (py_iter (get_or (u "sources") step2 (JList []))) →
  is_Some (py_iter (get_or (u "sources") step3 (JList []))) →
  is_Some (merged_sources step1 step2 step3).
Proof.
  intros [i1 E1] [i2 E2] [i3 E3]. unfold merged_sources. cbn [merge_steps].
  rewrite E1, E2, E3. by destruct (foldl _ _ i3).
Qed.

End ProgramHelpers.

Section ProgramTheorems.
Context {RT : PyRuntime}.
Variable urlopen : list event → reply.
Variable environ_api_key : option pystr.

Lemma main_validated a :
  (1 ≤ max_results a ≤ 20)%Z →
  main urlopen environ_api_key a = after_validation urlopen environ_api_key a.
Proof.
  intros Hmr. unfold main.
  destruct (Z.ltb_spec (max_results a) 1); [lia|].
  destruct (Z.ltb_spec 20 (max_results a)); [lia|]. done.
Qed.

Lemma llm_path_without_key a t :
  environ_api_key = None ∨ environ_api_key = Some [] →
  llm_path urlopen environ_api_key a t = (Raised (SystemExit 2), t ++ [missing_key]).
Proof. intros [-> | ->]; reflexivity. Qed.

(** C10. On a run that reaches the short-circuit, with the trigger words
    in the query and a version range extracted: when the releases document
    decodes to something that is not a list, or no listed release with a
    tag "rust-v0.NN.0" has its minor in the range, the short-circuit
    returns the no-match signal, having written nothing, and the program
    goes on with the LLM path, which stops with the missing-key diagnostic
    and exit status 2 when the key is absent or empty. *)
Theorem changelog_declines_to_llm_path (a : args) (lo hi : Z) (raw : pystr)
  (data : json) :
  occurs (u "codex") (lower (query a)) →
  occurs (u "cli") (lower (query a)) →
  _extract_codex_cli_range (query a) = Some (lo, hi) →
  urlopen [fetch] = NetBody raw →
  json_loads raw = Loaded data →
  ((∀ rs, data ≠ JList rs)
   ∨ ∃ rs, data = JList rs
       ∧ ∀ d minor, JDict d ∈ rs → fullmatch_tag (tag_of d) = Some minor →
           ¬ (lo ≤ minor ≤ hi)%Z) →
  _maybe_codex_cli_changelog_tldr urlopen (query a) (lang a) [] = (Normal None, [fetch])
  ∧ ((1 ≤ max_results a ≤ 20)%Z →
       main urlopen environ_api_key a []
       = llm_path urlopen environ_api_key a [fetch]
       ∧ (environ_api_key = None ∨ environ_api_key = Some [] →
            main urlopen environ_api_key a []
            = (Raised (SystemExit 2), [fetch; missing_key])
            ∧ exit_code (main urlopen environ_api_key a []).1 = 2%Z)).
Proof.
  intros Hcodex%isin_spec Hcli%isin_spec Hrange Hurl Hloads Hdata.
  assert (Hshort : _maybe_codex_cli_changelog_tldr urlopen (query a) (lang a) []
                   = (Normal None, [fetch])).
  { unfold _maybe_codex_cli_changelog_tldr. rewrite Hcodex, Hcli, Hrange.
    cbn [negb orb].
    pose proof (extract_range_ordered _ _ _ Hrange) as Hle.
    destruct (Z.ltb_spec hi lo); [lia|].
    unfold bind. rewrite http_get_json_run. cbv zeta.
    change ([] ++ [fetch]) with [fetch]. rewrite Hurl, Hloads.
    destruct Hdata as [Hnl | (rs & -> & Hrs)].
    - destruct data; try done. by destruct (Hnl l).
    - rewrite collect_releases_none; [done|].
      intros r Hr. unfold release_minor. destruct r as [| | | | | |d]; try done.
      fold (tag_of d). destruct (fullmatch_tag (tag_of d)) as [minor|] eqn:Et; [|done].
      specialize (Hrs d minor Hr Et).
      destruct (Z.leb_spec lo minor), (Z.leb_spec minor hi); try done. lia. }
  split; [done|]. intros Hmr.
  assert (Hmain : main urlopen environ_api_key a []
                  = llm_path urlopen environ_api_key a [fetch]).
  { rewrite main_validated by done. unfold after_validation, bind. by rewrite Hshort. }
  split; [done|]. intros Hkey.
  rewrite Hmain, (llm_path_without_key a [fetch] Hkey). done.
Qed.

(** C6, amended. With a valid [--max-results] and a non-empty API key in
    the environment: in auto mode, when the short-circuit declines, no
    explicit depth intent is found and the classifier answers "complex",
    the program prints the menu, ends with exit status 0, and has made no
    call to the chat-completion endpoint. *)
Theorem auto_complex_prints_menu (a : args) (api_key : pystr) (t1 : list event) :
  (1 ≤ max_results a ≤ 20)%Z →
  environ_api_key = Some api_key → api_key ≠ [] →
  mode a = auto →
  _maybe_codex_cli_changelog_tldr urlopen (query a) (lang a) [] = (Normal None, t1) →
  _explicit_depth_intent (query a) = None →
  _classify_query (query a) = complex →
  let run := main urlopen environ_api_key a [] in
  run = (Normal tt, t1 ++ [Stdout menu_text])
  ∧ exit_code run.1 = 0%Z
  ∧ stdout_of run.2 = [menu_text]
  ∧ filter is_post run.2 = [].
Proof.
  intros Hmr Hkey Hne Hmode Hshort Hintent Hclass run.
  assert (Hrun : run = (Normal tt, t1 ++ [Stdout menu_text])).
  { unfold run. rewrite main_validated by done.
    unfold after_validation, bind. rewrite Hshort.
    unfold llm_path. rewrite Hkey. destruct api_key as [|c k]; [done|].
    cbn [nonempty negb]. by rewrite Hmode, Hintent, Hclass. }
  destruct (changelog_trace urlopen _ _ _ _ _ Hshort) as [Hout Hpost].
  rewrite Hrun. cbn [fst snd exit_code].
  rewrite stdout_of_snoc, posts_snoc, Hout, Hpost. done.
Qed.

(** *** Runs over a transport that answers every request *)

Hypothesis Hok : transport_ok urlopen.

Lemma http_get_json_ok url headers :
  succeeds_with (λ _, True) (_http_get_json urlopen url headers).
Proof.
  intros t. rewrite http_get_json_run. cbv zeta.
  specialize (Hok (t ++ [HttpGet url headers])). rewrite last_snoc in Hok.
  destruct Hok as (raw & data & -> & ->). eauto.
Qed.

Lemma changelog_ok q l :
  succeeds_with (λ _, True) (_maybe_codex_cli_changelog_tldr urlopen q l).
Proof.
  unfold _maybe_codex_cli_changelog_tldr.
  destruct (negb _ || negb _); [by apply succeeds_ret|].
  destruct (_extract_codex_cli_range q) as [[lo hi]|]; [|by apply succeeds_ret].
  destruct (hi <? lo)%Z; [by apply succeeds_ret|].
  eapply succeeds_bind; [apply http_get_json_ok|].
  intros data _. destruct data; try (by apply succeeds_ret).
  destruct (bool_decide _); by apply succeeds_ret.
Qed.

Lemma request_ok api_key payload :
  succeeds_with
    (λ data, ∃ content, schema_content data = Some content
                        ∧ well_formed_plan (plan_of_content content))
    (_request urlopen api_key payload).
Proof.
  intros t. rewrite request_run. cbv zeta.
  match goal with |- context [urlopen ?t'] => specialize (Hok t') end.
  rewrite last_snoc in Hok.
  destruct Hok as (raw & data & content & -> & -> & Hs & Hp). eauto 10.
Qed.

Lemma web_search_ok api_key m q l n :
  succeeds_with (λ _, True) (_openrouter_web_search urlopen api_key m q l n).
Proof.
  eapply succeeds_bind; [apply request_ok|].
  intros data (content & -> & _). by apply succeeds_ret.
Qed.

Lemma json_plan_ok api_key m q l n :
  succeeds_with well_formed_plan
    (_openrouter_web_search_json_plan urlopen api_key m q l n).
Proof.
  eapply succeeds_bind; [apply request_ok|].
  intros data (content & -> & Hp). by apply succeeds_ret.
Qed.

Lemma followup_or_ok l i fallback :
  succeeds_with (λ _, True) (followup_or (JList l) i fallback).
Proof.
  unfold followup_or. cbn [py_len].
  destruct (Nat.leb_spec (i + 1) (length l)); [|by apply succeeds_ret].
  unfold str_item. destruct (l !! i) eqn:E; [by apply succeeds_ret|].
  apply lookup_ge_None in E. lia.
Qed.

Lemma deep_search_ok api_key m q l n :
  succeeds_with (λ _, True) (_deep_search_3x urlopen api_key m q l n).
Proof.
  unfold _deep_search_3x.
  eapply succeeds_bind; [apply json_plan_ok|]. intros step1 [[fl Hfl] Hs1].
  cbv zeta. rewrite Hfl.
  eapply succeeds_bind; [apply followup_or_ok|]. intros q2 _.
  eapply succeeds_bind; [apply followup_or_ok|]. intros q3 _.
  eapply succeeds_bind; [apply json_plan_ok|]. intros step2 [_ Hs2].
  eapply succeeds_bind; [apply json_plan_ok|]. intros step3 [_ Hs3].
  destruct (merged_sources_is_Some step1 step2 step3 Hs1 Hs2 Hs3) as [srcs ->].
  eapply succeeds_bind; [apply request_ok|].
  intros data (content & -> & _). by apply succeeds_ret.
Qed.

Lemma run_mode_ok a api_key m :
  succeeds_with (λ _, True) (run_mode urlopen a api_key m).
Proof.
  destruct m; simpl.
  - eapply succeeds_bind; [apply web_search_ok|]. intros out _ t.
    exists tt, (t ++ [Stdout (rstrip out ++ nl)]). done.
  - eapply succeeds_bind; [apply web_search_ok|]. intros out _ t.
    exists tt, (t ++ [Stdout (rstrip out ++ nl)]). done.
  - eapply succeeds_bind; [apply deep_search_ok|]. intros out _ t.
    exists tt, (t ++ [Stdout out]). done.
Qed.

Lemma llm_path_ok a api_key :
  environ_api_key = Some api_key → api_key ≠ [] →
  succeeds_with (λ _, True) (llm_path urlopen environ_api_key a).
Proof.
  intros Hkey Hne. unfold llm_path. rewrite Hkey.
  destruct api_key as [|c k]; [done|]. cbn [nonempty negb].
  destruct (mode a); try apply run_mode_ok.
  destruct (_explicit_depth_intent (query a)); [apply run_mode_ok|].
  destruct (_classify_query (query a)); [apply run_mode_ok|].
  intros t. exists tt, (t ++ [Stdout menu_text]). done.
Qed.

Lemma after_validation_ok a api_key :
  environ_api_key = Some api_key → api_key ≠ [] →
  succeeds_with (λ _, True) (after_validation urlopen environ_api_key a).
Proof.
  intros Hkey Hne. eapply succeeds_bind; [apply changelog_ok|].
  intros [text|] _; [|by eapply llm_path_ok].
  destruct (nonempty text); [|by eapply llm_path_ok].
  intros t. exists tt, (t ++ [Stdout text]). done.
Qed.

End ProgramTheorems.


(** ** The model on concrete runs *)

Example classify_short_query_with_marker :
  _classify_query (RT := table_runtime []) (u "porównaj wady i zalety") = banal.
Proof. vm_compute. reflexivity. Qed.

Example classify_long_plain_query :
  _classify_query (RT := table_runtime [])
    (u "a b c d e f g h i j k l") = complex
  ∧ _classify_query (RT := table_runtime []) (u "a b c d e f g h i j k") = banal.
Proof. split; vm_compute; reflexivity. Qed.

(** C6 as stated fails without the API key: every condition of the claim
    holds, and the program stops with the missing-key diagnostic and exit
    status 2, the menu not printed. *)
Lemma auto_complex_without_key :
  let a := sample_args (u "porównaj wady i zalety X i Y") 5 auto in
  let run := main (RT := table_runtime []) offline None a [] in
  mode a = auto
  ∧ _maybe_codex_cli_changelog_tldr (RT := table_runtime []) offline
      (query a) (lang a) [] = (Normal None, [])
  ∧ _explicit_depth_intent (RT := table_runtime []) (query a) = None
  ∧ _classify_query (RT := table_runtime []) (query a) = complex
  ∧ run = (Raised (SystemExit 2),
           [Stderr (u "Missing OPENROUTER_API_KEY in environment.")])
  ∧ exit_code run.1 = 2%Z
  ∧ stdout_of run.2 = [].
Proof. repeat split; vm_compute; reflexivity. Qed.

Lemma auto_complex_prints_menu_witness :
  main (RT := table_runtime []) offline (Some (u "sk-test"))
    (sample_args (u "porównaj wady i zalety X i Y") 5 auto) []
  = (Normal tt, [Stdout menu_text]).
Proof.
  refine (proj1 (auto_complex_prints_menu (RT := table_runtime []) offline
            (Some (u "sk-test"))
            (sample_args (u "porównaj wady i zalety X i Y") 5 auto)
            (u "sk-test") [] _ _ _ _ _ _ _)).
  - simpl. lia.
  - reflexivity.
  - vm_compute. discriminate.
  - reflexivity.
  - vm_compute. reflexivity.
  - vm_compute. reflexivity.
  - vm_compute. reflexivity.
Defined.

Lemma changelog_declines_to_llm_path_witness :
  let a := sample_args (u "codex cli 0.80-0.87") 5 auto in
  main (RT := table_runtime releases_object) (λ _, NetBody (u "{}")) None a []
  = (Raised (SystemExit 2),
     [HttpGet GITHUB_RELEASES_API changelog_headers;
      Stderr (u "Missing OPENROUTER_API_KEY in environment.")]).
Proof.
  intros a.
  destruct (changelog_declines_to_llm_path (RT := table_runtime releases_object)
              (λ _, NetBody (u "{}")) None a 80 87 (u "{}") (JDict []))
    as [_ Hmain].
  - apply isin_spec. vm_compute. reflexivity.
  - apply isin_spec. vm_compute. reflexivity.
  - vm_compute. reflexivity.
  - reflexivity.
  - vm_compute. reflexivity.
  - left. intros rs. discriminate.
  - destruct Hmain as [_ Hkey]; [simpl; lia|].
    apply Hkey. by left.
Defined.

Lemma answering_transport_ok :
  transport_ok (RT := table_runtime chat_table) (λ _, NetBody (u "ok")).
Proof.
  intros t.
  assert (Hchat : chat_reply_ok (RT := table_runtime chat_table) (NetBody (u "ok"))).
  { exists (u "ok"), chat_document, (u "brak planu").
    split; [done|]. split; [vm_compute; reflexivity|].
    split; [vm_compute; reflexivity|].
    split; [exists []|exists []]; vm_compute; reflexivity. }
  assert (Hget : get_reply_ok (RT := table_runtime chat_table) (NetBody (u "ok"))).
  { exists (u "ok"), chat_document. split; [done|]. vm_compute. reflexivity. }
  destruct (last t) as [[]|]; done.
Qed.


(** A plan whose follow-up field is a number passes through the plan
    function unchanged and makes the deep search end with an uncaught
    [TypeError] (exit status 1) after the first request. *)
Example deep_search_ill_typed_followups :
  let run := main (RT := table_runtime ill_typed_table) (λ _, NetBody (u "ok"))
               (Some (u "sk-test")) (sample_args (u "pogoda") 5 deep) [] in
  run.1 = Raised TypeError ∧ exit_code run.1 = 1%Z ∧ length run.2 = 1%nat.
Proof. vm_compute. repeat split; reflexivity. Qed.

Lemma plan_of_content_total_witness :
  dict_get (u "sources") (plan_of_content (RT := table_runtime object_table)
                            reply_with_object) = Some (JInt 1)
  ∧ dict_get (u "tldr_bullets") (plan_of_content (RT := table_runtime object_table)
                                   reply_with_object) = Some (JList []).
Proof.
  destruct (plan_of_content_total (RT := table_runtime object_table) reply_with_object)
    as (_ & _ & _ & H & _).
  destruct (H [ (u "sources", JInt 1) ]) as (Hkeep & Hdef & _).
  - vm_compute. reflexivity.
  - split.
    + apply Hkeep. vm_compute. reflexivity.
    + apply Hdef; [|vm_compute; reflexivity].
      apply list_elem_of_In. vm_compute. tauto.
Defined.



(** * Further properties *)

(** ** Output and request discipline *)

Lemma quiet_app e1 e2 : quiet e1 → quiet e2 → quiet (e1 ++ e2).
Proof. intros H1 H2. apply Forall_app. done. Qed.

Lemma ext_ok_raised final {A B} (e : exn) (ext : list event) :
  ext_ok false (A := A) (Raised e) ext → ext_ok final (A := B) (Raised e) ext.
Proof. done. Qed.

Lemma ext_ok_app final {A B} (a : A) (o : outcome B) e1 e2 :
  ext_ok false (Normal a) e1 → ext_ok final o e2 → ext_ok final o (e1 ++ e2).
Proof.
  intros H1 H2. simpl in H1. destruct o as [b|[c| | | |]]; simpl in *.
  - destruct final.
    + destruct H2 as (net & text & -> & Hq). exists (e1 ++ net), text.
      split; [by rewrite app_assoc | by apply quiet_app].
    + by apply quiet_app.
  - destruct H2 as (-> & net & msg & -> & Hq). split; [done|].
    exists (e1 ++ net), msg. split; [by rewrite app_assoc | by apply quiet_app].
  - by apply quiet_app.
  - by apply quiet_app.
  - by apply quiet_app.
  - by apply quiet_app.
Qed.

Lemma disciplined_bind final key g1 p1 g2 p2 {A B} (c : M A) (k : A → M B) :
  disciplined false key g1 p1 c →
  (∀ a, disciplined final key g2 p2 (k a)) →
  disciplined final key (g1 + g2) (p1 + p2) (bind c k).
Proof.
  intros Hc Hk t. destruct (Hc t) as (e1 & Et & Hok & Hall & Hg & Hp).
  unfold bind. destruct (c t) as [o1 t1]. simpl in Et, Hok. subst t1.
  destruct o1 as [a|e].
  - destruct (Hk a (t ++ e1)) as (e2 & Et2 & Hok2 & Hall2 & Hg2 & Hp2).
    exists (e1 ++ e2). destruct (k a (t ++ e1)) as [o2 t2]. simpl in *.
    split; [by rewrite Et2, app_assoc|].
    split; [exact (ext_ok_app final a o2 e1 e2 Hok Hok2)|].
    split; [by apply Forall_app|].
    rewrite !filter_app, !length_app. lia.
  - exists e1. simpl. split; [done|]. split; [done|]. split; [done|]. lia.
Qed.

Lemma disciplined_weaken final key g p g' p' {A} (c : M A) :
  disciplined final key g p c → g ≤ g' → p ≤ p' → disciplined final key g' p' c.
Proof.
  intros Hc Hg Hp t. destruct (Hc t) as (ext & ? & ? & ? & ? & ?).
  exists ext. repeat split; try done; lia.
Qed.

Lemma disciplined_ret key g p {A} (a : A) : disciplined false key g p (ret a).
Proof.
  intros t. exists []. simpl. rewrite app_nil_r.
  repeat split; try done; try constructor; lia.
Qed.

Lemma disciplined_raise final key g p {A} (e : exn) :
  match e with SystemExit _ => False | _ => True end →
  disciplined final key g p (raise (A := A) e).
Proof.
  intros He t. exists []. simpl. rewrite app_nil_r.
  split; [done|]. split; [by destruct e; try done; constructor|].
  split; [constructor|]. simpl. lia.
Qed.

Lemma disciplined_die final key g p {A} (message : pystr) :
  disciplined final key g p (_die (A := A) message).
Proof.
  intros t. exists [Stderr message]. simpl.
  split; [done|]. split.
  { split; [done|]. exists [], message. split; [done|constructor]. }
  split; [by repeat constructor|]. vm_compute. lia.
Qed.

Lemma disciplined_print key g p (text : pystr) : disciplined true key g p (print text).
Proof.
  intros t. exists [Stdout text]. simpl.
  split; [done|]. split; [exists [], text; split; [done|constructor]|].
  split; [by repeat constructor|]. vm_compute. lia.
Qed.

Ltac allowed_by H :=
  repeat first [ apply List.Forall_nil | apply List.Forall_cons; [first [exact H | done]|] ].

Section Discipline.
Context {RT : PyRuntime}.
Variable urlopen : list event → reply.

Lemma disciplined_request api_key payload :
  disciplined false (Some api_key) 0 1 (_request urlopen api_key payload).
Proof.
  intros t. rewrite request_run. cbv zeta. fold (chat_post api_key payload).
  assert (Hallowed : is_network (chat_post api_key payload) = true
                     → allowed_request (Some api_key) (chat_post api_key payload)).
  { intros _. right. by exists api_key, payload. }
  assert (Hfail : ∀ msg,
            ∃ ext, (t ++ [chat_post api_key payload]) ++ [Stderr msg] = t ++ ext
              ∧ ext_ok false (A := json) (Raised (SystemExit 2)) ext
              ∧ Forall (λ e, is_network e = true → allowed_request (Some api_key) e) ext
              ∧ length (filter is_get ext) ≤ 0 ∧ length (filter is_post ext) ≤ 1).
  { intros msg. exists [chat_post api_key payload; Stderr msg].
    split; [by rewrite <- app_assoc|]. split.
    { split; [done|]. exists [chat_post api_key payload], msg.
      split; [done|]. by repeat constructor. }
    split; [allowed_by Hallowed|]. split; vm_compute; lia. }
  assert (Hsent : ∀ o : outcome json,
            match o with Raised (SystemExit _) => False | _ => True end →
            ∃ ext, t ++ [chat_post api_key payload] = t ++ ext
              ∧ ext_ok false o ext
              ∧ Forall (λ e, is_network e = true → allowed_request (Some api_key) e) ext
              ∧ length (filter is_get ext) ≤ 0 ∧ length (filter is_post ext) ≤ 1).
  { intros o Ho. exists [chat_post api_key payload]. split; [done|]. split.
    { destruct o as [|[]]; try done; by repeat constructor. }
    split; [allowed_by Hallowed|]. split; vm_compute; lia. }
  destruct (urlopen _) as [e|code raw|raw]; cbn [fst snd]; [apply Hfail|apply Hfail|].
  destruct (json_loads raw); cbn [fst snd]; [by apply Hsent|apply Hfail|by apply Hsent].
Qed.

Lemma disciplined_http_get_json key :
  disciplined false key 1 0 (_http_get_json urlopen GITHUB_RELEASES_API changelog_headers).
Proof.
  intros t. rewrite http_get_json_run. cbv zeta.
  assert (Hallowed : is_network fetch = true → allowed_request key fetch) by (by left).
  assert (Hfail : ∀ msg,
            ∃ ext, (t ++ [fetch]) ++ [Stderr msg] = t ++ ext
              ∧ ext_ok false (A := json) (Raised (SystemExit 2)) ext
              ∧ Forall (λ e, is_network e = true → allowed_request key e) ext
              ∧ length (filter is_get ext) ≤ 1 ∧ length (filter is_post ext) ≤ 0).
  { intros msg. exists [fetch; Stderr msg].
    split; [by rewrite <- app_assoc|]. split.
    { split; [done|]. exists [fetch], msg. split; [done|]. by repeat constructor. }
    split; [allowed_by Hallowed|]. split; vm_compute; lia. }
  assert (Hsent : ∀ o : outcome json,
            match o with Raised (SystemExit _) => False | _ => True end →
            ∃ ext, t ++ [fetch] = t ++ ext
              ∧ ext_ok false o ext
              ∧ Forall (λ e, is_network e = true → allowed_request key e) ext
              ∧ length (filter is_get ext) ≤ 1 ∧ length (filter is_post ext) ≤ 0).
  { intros o Ho. exists [fetch]. split; [done|]. split.
    { destruct o as [|[]]; try done; by repeat constructor. }
    split; [allowed_by Hallowed|]. split; vm_compute; lia. }
  destruct (urlopen _) as [e|code raw|raw]; cbn [fst snd]; [apply Hfail|apply Hfail|].
  destruct (json_loads raw); cbn [fst snd]; [by apply Hsent|apply Hfail|by apply Hsent].
Qed.

Lemma disciplined_changelog key q l :
  disciplined false key 1 0 (_maybe_codex_cli_changelog_tldr urlopen q l).
Proof.
  unfold _maybe_codex_cli_changelog_tldr.
  assert (Hret : ∀ r : option pystr, disciplined false key 1 0 (ret r)).
  { intros r. apply disciplined_ret. }
  destruct (negb _ || negb _); [apply Hret|].
  destruct (_extract_codex_cli_range q) as [[lo hi]|]; [|apply Hret].
  destruct (hi <? lo)%Z; [apply Hret|].
  apply (disciplined_bind false key 1 0 0 0); [apply disciplined_http_get_json|].
  intros data. destruct data; try apply disciplined_ret.
  destruct (bool_decide _); apply disciplined_ret.
Qed.

Lemma disciplined_schema_error final key g p {A} data :
  disciplined final key g p (schema_error (A := A) data).
Proof. apply disciplined_die. Qed.

Lemma disciplined_web_search k m q l n :
  disciplined false (Some k) 0 1 (_openrouter_web_search urlopen k m q l n).
Proof.
  apply (disciplined_bind false (Some k) 0 1 0 0); [apply disciplined_request|].
  intros data. destruct (schema_content data);
    [apply disciplined_ret|apply disciplined_schema_error].
Qed.

Lemma disciplined_json_plan k m q l n :
  disciplined false (Some k) 0 1 (_openrouter_web_search_json_plan urlopen k m q l n).
Proof.
  apply (disciplined_bind false (Some k) 0 1 0 0); [apply disciplined_request|].
  intros data. destruct (schema_content data);
    [apply disciplined_ret|apply disciplined_schema_error].
Qed.

Lemma disciplined_followup_or key f i fallback :
  disciplined false key 0 0 (followup_or f i fallback).
Proof.
  unfold followup_or. destruct (py_len f); [|by apply disciplined_raise].
  destruct (_ <=? _)%nat; [|apply disciplined_ret].
  unfold str_item. destruct f; try (by apply disciplined_raise).
  - destruct (_ !! _); [apply disciplined_ret|by apply disciplined_raise].
  - destruct (_ !! _); [apply disciplined_ret|by apply disciplined_raise].
Qed.

Lemma disciplined_deep_search k m q l n :
  disciplined false (Some k) 0 4 (_deep_search_3x urlopen k m q l n).
Proof.
  unfold _deep_search_3x.
  apply (disciplined_bind false (Some k) 0 1 0 3); [apply disciplined_json_plan|].
  intros step1. cbv zeta.
  apply (disciplined_bind false (Some k) 0 0 0 3); [apply disciplined_followup_or|].
  intros q2.
  apply (disciplined_bind false (Some k) 0 0 0 3); [apply disciplined_followup_or|].
  intros q3.
  apply (disciplined_bind false (Some k) 0 1 0 2); [apply disciplined_json_plan|].
  intros step2.
  apply (disciplined_bind false (Some k) 0 1 0 1); [apply disciplined_json_plan|].
  intros step3.
  destruct (merged_sources step1 step2 step3) as [srcs|];
    [|by apply disciplined_raise].
  apply (disciplined_bind false (Some k) 0 1 0 0); [apply disciplined_request|].
  intros data. destruct (schema_content data);
    [apply disciplined_ret|apply disciplined_schema_error].
Qed.

Lemma disciplined_run_mode a k m :
  disciplined true (Some k) 0 4 (run_mode urlopen a k m).
Proof.
  assert (Hsimple : disciplined true (Some k) 0 4
            (let! out := _openrouter_web_search urlopen k (model a) (query a)
                           (lang a) (max_results a) in
             print (rstrip out ++ nl))).
  { apply (disciplined_weaken true (Some k) (0 + 0) (1 + 0)); [|lia|lia].
    apply disciplined_bind; [apply disciplined_web_search|].
    intros out. apply disciplined_print. }
  destruct m; [exact Hsimple|exact Hsimple|].
  apply (disciplined_bind true (Some k) 0 4 0 0); [apply disciplined_deep_search|].
  intros out. apply disciplined_print.
Qed.

Variable environ_api_key : option pystr.

Lemma disciplined_llm_path a :
  disciplined true environ_api_key 0 4 (llm_path urlopen environ_api_key a).
Proof.
  unfold llm_path. destruct environ_api_key as [k|]; [|apply disciplined_die].
  destruct (nonempty k); [|apply disciplined_die]. cbn [negb].
  assert (Hmenu : disciplined true (Some k) 0 4 (print menu_text)).
  { apply disciplined_print. }
  destruct (mode a); try apply disciplined_run_mode.
  destruct (_explicit_depth_intent (query a)); [apply disciplined_run_mode|].
  destruct (_classify_query (query a)); [apply disciplined_run_mode|exact Hmenu].
Qed.

Lemma disciplined_main a :
  disciplined true environ_api_key 1 4 (main urlopen environ_api_key a).
Proof.
  unfold main. destruct (_ || _); [apply disciplined_die|].
  unfold after_validation.
  apply (disciplined_bind true environ_api_key 1 0 0 4); [apply disciplined_changelog|].
  intros [text|]; [|apply disciplined_llm_path].
  destruct (nonempty text); [|apply disciplined_llm_path].
  apply disciplined_print.
Qed.

End Discipline.

(** ** The releases kept by the short-circuit *)

Section ReleaseFacts.
Context {RT : PyRuntime}.

Lemma release_minor_Some lo hi r m d :
  release_minor lo hi r = Some (m, d)
  ↔ r = JDict d ∧ fullmatch_tag (tag_of d) = Some m ∧ (lo ≤ m ≤ hi)%Z.
Proof.
  unfold release_minor. destruct r as [| | | | | |d0];
    try (split; [done | by intros [? _]]).
  fold (tag_of d0). destruct (fullmatch_tag (tag_of d0)) as [m0|] eqn:Et.
  - destruct (Z.leb_spec lo m0), (Z.leb_spec m0 hi); simpl; split;
      try (intros [= <- <-]; done); try done;
      intros ([= <-] & Hm & ?); rewrite Et in Hm; injection Hm as <-;
      first [done | lia].
  - split; [done|]. intros ([= <-] & Hm & _). by rewrite Et in Hm.
Qed.

Lemma collect_releases_lookup lo hi data (acc : gmap Z pydict) m :
  foldl (λ releases r,
           match release_minor lo hi r with
           | Some (minor, d) => <[minor := d]> releases
           | None => releases
           end) acc data !! m
  = match last_release lo hi m data with
    | Some d => Some d
    | None => acc !! m
    end.
Proof.
  revert acc. induction data as [|r rest IH]; intros acc; [done|].
  cbn [foldl last_release]. rewrite IH.
  destruct (last_release lo hi m rest); [done|].
  destruct (release_minor lo hi r) as [[m' d]|]; [|done].
  case_bool_decide as Hm.
  - subst m'. by rewrite lookup_insert_eq.
  - by rewrite lookup_insert_ne.
Qed.

Lemma last_release_None lo hi m data :
  last_release lo hi m data = None →
  ∀ r d', r ∈ data → release_minor lo hi r ≠ Some (m, d').
Proof.
  induction data as [|r rest IH]; [by intros _ r d' ?%elem_of_nil|].
  cbn [last_release]. destruct (last_release lo hi m rest) eqn:E; [done|].
  intros Hr r' d' [->|Hin]%elem_of_cons Hr'.
  - rewrite Hr' in Hr. by rewrite bool_decide_eq_true_2 in Hr.
  - by eapply IH.
Qed.

Lemma last_release_Some lo hi m data d :
  last_release lo hi m data = Some d
  ↔ ∃ pre post,
      data = pre ++ JDict d :: post
      ∧ release_minor lo hi (JDict d) = Some (m, d)
      ∧ ∀ r d', r ∈ post → release_minor lo hi r ≠ Some (m, d').
Proof.
  revert d. induction data as [|r rest IH]; intros d.
  { split; [done|]. intros (pre & post & H & _). by destruct pre. }
  cbn [last_release]. destruct (last_release lo hi m rest) as [d0|] eqn:El.
  - split.
    + intros [= ->]. destruct (proj1 (IH d) eq_refl) as (pre & post & -> & Hd & Hpost).
      by exists (r :: pre), post.
    + intros (pre & post & Hdata & Hd & Hpost). destruct pre as [|x pre].
      * injection Hdata as -> ->.
        destruct (proj1 (IH d0) eq_refl) as (pre' & post' & -> & Hd0 & _).
        destruct (Hpost (JDict d0) d0); [|done].
        apply elem_of_app. right. by left.
      * injection Hdata as -> ->.
        assert (Hx : Some d0 = Some d); [|done].
        apply IH. by exists pre, post.
  - pose proof (last_release_None lo hi m rest El) as Hrest.
    destruct (release_minor lo hi r) as [[m' d1]|] eqn:Er.
    + case_bool_decide as Hm.
      * subst m'. split.
        -- intros [= <-]. exists [], rest.
           apply release_minor_Some in Er as Hr. destruct Hr as (-> & _).
           split; [done|]. split; [done|]. intros r' d' Hin. by apply Hrest.
        -- intros (pre & post & Hdata & Hd & Hpost). destruct pre as [|x pre].
           ++ injection Hdata as -> ->. rewrite Hd in Er. by injection Er as ->.
           ++ injection Hdata as -> ->. destruct (Hrest (JDict d) d); [|done].
              apply elem_of_app. right. by left.
      * split; [done|].
        intros (pre & post & Hdata & Hd & Hpost). destruct pre as [|x pre].
        -- injection Hdata as -> ->. rewrite Hd in Er. by injection Er as <- _.
        -- injection Hdata as -> ->. destruct (Hrest (JDict d) d); [|done].
           apply elem_of_app. right. by left.
    + split; [done|].
      intros (pre & post & Hdata & Hd & Hpost). destruct pre as [|x pre].
      * injection Hdata as -> ->. by rewrite Hd in Er.
      * injection Hdata as -> ->. destruct (Hrest (JDict d) d); [|done].
        apply elem_of_app. right. by left.
Qed.

(** X1. Under a minor the short-circuit keeps the last listed release
    whose tag is "rust-v0.NN.0" with that minor, and only minors of the
    requested range are kept. *)
Theorem collect_releases_last_wins (lo hi : Z) (data : list json) (m : Z)
  (d : pydict) :
  collect_releases lo hi data !! m = Some d
  ↔ ∃ pre post,
      data = pre ++ JDict d :: post
      ∧ fullmatch_tag (tag_of d) = Some m ∧ (lo ≤ m ≤ hi)%Z
      ∧ ∀ d', JDict d' ∈ post → fullmatch_tag (tag_of d') ≠ Some m.
Proof.
  unfold collect_releases. rewrite collect_releases_lookup, lookup_empty.
  assert (Hl : match last_release lo hi m data with
               | Some d0 => Some d0
               | None => None
               end = last_release lo hi m data) by (by destruct (last_release _ _ _ _)).
  rewrite Hl, last_release_Some. split.
  - intros (pre & post & -> & Hd & Hpost). exists pre, post.
    apply release_minor_Some in Hd as (_ & Ht & Hm).
    split; [done|]. split; [done|]. split; [done|].
    intros d' Hin Ht'. apply (Hpost (JDict d') d' Hin).
    by apply release_minor_Some.
  - intros (pre & post & -> & Ht & Hm & Hpost). exists pre, post.
    split; [done|]. split; [by apply release_minor_Some|].
    intros r d' Hin Hr. apply release_minor_Some in Hr as (-> & Ht' & _).
    by apply (Hpost d' Hin).
Qed.

Lemma collect_releases_in_range lo hi data m :
  is_Some (collect_releases lo hi data !! m) → (lo ≤ m ≤ hi)%Z.
Proof.
  intros [d Hd]. unfold collect_releases in Hd.
  rewrite collect_releases_lookup, lookup_empty in Hd.
  destruct (last_release lo hi m data) as [d0|] eqn:El; [|done].
  apply last_release_Some in El as (pre & post & _ & Hr & _).
  by apply release_minor_Some in Hr as (_ & _ & ?).
Qed.

Lemma StronglySorted_le_lt (l : list Z) :
  StronglySorted Z.le l → NoDup l → StronglySorted Z.lt l.
Proof.
  induction 1 as [|x l Hl IH Hx]; intros Hnd; [constructor|].
  apply NoDup_cons in Hnd as [Hnin Hnd]. constructor; [by apply IH|].
  apply Forall_forall. intros y Hy.
  pose proof (proj1 (Forall_forall _ _) Hx y Hy) as Hle.
  assert (x ≠ y) by (intros ->; done). lia.
Qed.

Lemma sorted_minors_elem (releases : gmap Z pydict) m :
  m ∈ sorted_minors releases ↔ is_Some (releases !! m).
Proof.
  unfold sorted_minors. rewrite merge_sort_Permutation.
  change (map fst (map_to_list releases)) with ((map_to_list releases).*1).
  rewrite list_elem_of_fmap. split.
  - intros ([m' r] & -> & Hin). apply elem_of_map_to_list in Hin. by exists r.
  - intros [r Hr]. exists (m, r). split; [done|]. by apply elem_of_map_to_list.
Qed.

Lemma sorted_minors_NoDup (releases : gmap Z pydict) : NoDup (sorted_minors releases).
Proof.
  unfold sorted_minors. rewrite merge_sort_Permutation.
  apply NoDup_fst_map_to_list.
Qed.

Lemma sorted_minors_sorted (releases : gmap Z pydict) :
  StronglySorted Z.lt (sorted_minors releases).
Proof.
  apply StronglySorted_le_lt; [|apply sorted_minors_NoDup].
  unfold sorted_minors. apply StronglySorted_merge_sort; apply _.
Qed.

Lemma releases_of_keys (releases : gmap Z pydict) (l : list Z) :
  Forall (λ m, is_Some (releases !! m)) l →
  map fst (omap (λ minor, match releases !! minor with
                          | Some r => Some (minor, r)
                          | None => None
                          end) l) = l.
Proof.
  induction 1 as [|m l [r Hr] _ IH]; [done|].
  cbn [omap list_omap]. rewrite Hr. simpl. by rewrite IH.
Qed.

(** X2. The report walks the kept releases in strictly ascending order of
    minor, each exactly once, paired with the release kept under it. *)
Theorem releases_of_ascending (releases : gmap Z pydict) :
  StronglySorted Z.lt (map fst (releases_of releases))
  ∧ (∀ m r, (m, r) ∈ releases_of releases ↔ releases !! m = Some r)
  ∧ length (releases_of releases) = size releases.
Proof.
  assert (Hfst : map fst (releases_of releases) = sorted_minors releases).
  { unfold releases_of. apply releases_of_keys.
    apply Forall_forall. intros m. apply sorted_minors_elem. }
  split; [rewrite Hfst; apply sorted_minors_sorted|]. split.
  - intros m r. unfold releases_of. rewrite list_elem_of_omap. split.
    + intros (m' & _ & Hm'). destruct (releases !! m') as [r'|] eqn:E; [|done].
      by injection Hm' as -> ->.
    + intros Hr. exists m. split; [apply sorted_minors_elem; eauto|]. by rewrite Hr.
  - rewrite <- (length_map fst), Hfst. unfold sorted_minors.
    rewrite merge_sort_Permutation, length_map. apply length_map_to_list.
Qed.

(** X3. The minors with a kept release and the minors reported missing
    split the requested range: each minor of the range is in exactly one of
    the two lists. *)
Theorem releases_and_missing_partition (lo hi : Z) (data : list json) :
  let releases := collect_releases lo hi data in
  sorted_minors releases ++ missing_minors lo hi releases ≡ₚ py_range lo (hi + 1)
  ∧ (length (sorted_minors releases) + length (missing_minors lo hi releases)
     = Z.to_nat (hi + 1 - lo))%nat.
Proof.
  intros releases.
  assert (Hperm : sorted_minors releases ++ missing_minors lo hi releases
                  ≡ₚ py_range lo (hi + 1)).
  { apply NoDup_Permutation.
    - apply NoDup_app. split; [apply sorted_minors_NoDup|]. split.
      + intros m Hm Hmiss. apply sorted_minors_elem in Hm as [r Hr].
        unfold missing_minors in Hmiss.
        apply list_elem_of_filter in Hmiss as [Hn _]. congruence.
      + unfold missing_minors. apply NoDup_filter, NoDup_seqZ.
    - apply NoDup_seqZ.
    - intros m. rewrite elem_of_app, sorted_minors_elem.
      unfold missing_minors, py_range. rewrite list_elem_of_filter, elem_of_seqZ.
      split.
      + intros [Hs|[_ ?]]; [|done].
        apply collect_releases_in_range in Hs. lia.
      + intros Hm. destruct (releases !! m) eqn:E; [left; eauto|right; done]. }
  split; [done|].
  rewrite <- length_app, Hperm. unfold py_range. by rewrite length_seqZ.
Qed.

Lemma version_round_trip_all :
  forallb version_round_trip (seqZ 0 100) = true.
Proof. vm_compute. reflexivity. Qed.

(** X4. The version text the report prints for a two-digit minor is read
    back as that minor by both patterns of the script: as a release tag
    after "rust-v", and as a version range of one minor. *)
Theorem version_text_round_trip (m : Z) :
  (0 ≤ m ≤ 99)%Z →
  fullmatch_tag (u "rust-v" ++ version_text m) = Some m
  ∧ _extract_codex_cli_range (version_text m) = Some (m, m)
  ∧ length (fmt_02d m) = 2.
Proof.
  intros Hm.
  assert (Hin : m ∈ seqZ 0 100) by (apply elem_of_seqZ; lia).
  pose proof version_round_trip_all as Hall.
  rewrite forallb_forall in Hall.
  specialize (Hall m (proj1 (list_elem_of_In _ _) Hin)).
  unfold version_round_trip in Hall.
  apply andb_true_iff in Hall as [Hall H3]. apply andb_true_iff in Hall as [H1 H2].
  apply bool_decide_eq_true in H1, H2, H3. done.
Qed.

End ReleaseFacts.

Lemma version_text_round_trip_witness :
  fullmatch_tag (RT := table_runtime []) (u "rust-v" ++ version_text 7) = Some 7%Z
  ∧ _extract_codex_cli_range (RT := table_runtime []) (version_text 7) = Some (7, 7)%Z
  ∧ length (fmt_02d 7) = 2.
Proof. apply (version_text_round_trip (RT := table_runtime []) 7). lia. Defined.

(** ** Trimming *)

Lemma drop_while_Forall (P : N → Prop) p s : Forall P s → Forall P (drop_while p s).
Proof.
  induction 1 as [|c s Hc Hs IH]; [constructor|]. simpl.
  destruct (p c); [done|by constructor].
Qed.

Lemma drop_while_head p s c : head (drop_while p s) = Some c → p c = false.
Proof.
  destruct (drop_while p s) as [|x r] eqn:E; [done|]. intros [= ->].
  by apply drop_while_cons in E as (_ & _ & _ & ?).
Qed.

Lemma drop_while_all p s : Forall (λ x, p x = true) s → drop_while p s = [].
Proof. induction 1 as [|c s Hc _ IH]; [done|]. simpl. by rewrite Hc. Qed.

Lemma drop_while_app_all p a s :
  Forall (λ x, p x = true) a → drop_while p (a ++ s) = drop_while p s.
Proof. induction 1 as [|c a Hc _ IH]; [done|]. simpl. by rewrite Hc. Qed.

Lemma drop_while_app_keep p s b :
  drop_while p s ≠ [] → drop_while p (s ++ b) = drop_while p s ++ b.
Proof.
  induction s as [|c s IH]; [done|]. simpl. destruct (p c); [apply IH|done].
Qed.

Lemma rstrip_Forall (P : N → Prop) s : Forall P s → Forall P (rstrip s).
Proof.
  intros Hs. unfold rstrip. apply Forall_rev, drop_while_Forall. by apply Forall_rev.
Qed.

Lemma strip_Forall (P : N → Prop) s : Forall P s → Forall P (strip s).
Proof. intros Hs. by apply rstrip_Forall, drop_while_Forall. Qed.

Lemma rstrip_app_all s b :
  Forall (λ x, isspace x = true) b → rstrip (s ++ b) = rstrip s.
Proof.
  intros Hb. unfold rstrip. rewrite rev_app_distr, drop_while_app_all; [done|].
  by apply Forall_rev.
Qed.

Lemma rstrip_all s : Forall (λ x, isspace x = true) s → rstrip s = [].
Proof.
  intros Hs. unfold rstrip. rewrite drop_while_all; [done|]. by apply Forall_rev.
Qed.

Lemma drop_while_suffix p s : ∃ pre, s = pre ++ drop_while p s.
Proof.
  induction s as [|c s [pre IH]]; [by exists []|]. simpl.
  destruct (p c); [|by exists []]. exists (c :: pre). simpl. by rewrite <- IH.
Qed.

Lemma rstrip_prefix s : ∃ suffix, s = rstrip s ++ suffix.
Proof.
  unfold rstrip. destruct (drop_while_suffix isspace (rev s)) as [pre Hpre].
  exists (rev pre). rewrite <- rev_app_distr, <- Hpre. by rewrite rev_involutive.
Qed.

Lemma last_rev (l : pystr) : last (rev l) = head l.
Proof. destruct l as [|c l]; [done|]. simpl. by rewrite last_snoc. Qed.

Lemma strip_trimmed s : trimmed (strip s).
Proof.
  intros c [Hh|Hl].
  - unfold strip in Hh. destruct (rstrip_prefix (lstrip s)) as [suffix Hs].
    apply (drop_while_head isspace s). fold (lstrip s). rewrite Hs.
    destruct (rstrip (lstrip s)); [done|]. done.
  - unfold strip, rstrip in Hl. rewrite last_rev in Hl.
    by apply drop_while_head in Hl.
Qed.

Lemma strip_pad a s b :
  Forall (λ x, isspace x = true) a → Forall (λ x, isspace x = true) b →
  strip (a ++ s ++ b) = strip s.
Proof.
  intros Ha Hb. unfold strip, lstrip. rewrite drop_while_app_all by done.
  destruct (drop_while isspace s) as [|c r] eqn:E.
  - apply drop_while_nil in E. rewrite drop_while_all; [done|].
    by apply Forall_app.
  - rewrite drop_while_app_keep by (by rewrite E). rewrite E.
    by apply rstrip_app_all.
Qed.

(** ** Bullets, for every limit *)

Lemma splitlines_from_no_break s cur after_cr :
  Forall (λ c, is_linebreak c = false) cur →
  Forall (Forall (λ c, is_linebreak c = false)) (splitlines_from s cur after_cr).
Proof.
  revert cur after_cr. induction s as [|c s IH]; intros cur after_cr Hcur.
  - simpl. destruct cur; [constructor|]. constructor; [|constructor].
    by apply Forall_rev.
  - cbn [splitlines_from].
    destruct (after_cr && (c =? 10)%N); [by apply IH|].
    destruct (is_linebreak c) eqn:Hc.
    + constructor; [by apply Forall_rev|]. apply IH. constructor.
    + apply IH. by constructor.
Qed.

Lemma bullets_loop_nonpos limit lines :
  (limit ≤ 0)%Z → bullets_loop limit lines [] = take 1 (omap bullet_item lines).
Proof.
  intros Hl. induction lines as [|line rest IH]; [done|].
  rewrite bullets_loop_cons.
  change (omap bullet_item (line :: rest))
    with (match bullet_item line with
          | Some y => y :: omap bullet_item rest
          | None => omap bullet_item rest
          end).
  destruct (bullet_item line) as [item|]; [|done].
  change (Z.of_nat (length ([] ++ [item]))) with 1%Z.
  destruct (Z.leb_spec limit 1); [done|lia].
Qed.

Lemma summarize_take body limit :
  _summarize_bullets_from_markdown body limit
  = take (Z.to_nat (Z.max 1 limit)) (omap bullet_item (splitlines body)).
Proof.
  unfold _summarize_bullets_from_markdown.
  destruct (Z.le_gt_cases limit 0) as [Hl|Hl].
  - rewrite bullets_loop_nonpos by done. by rewrite Z.max_l by lia.
  - rewrite bullets_loop_spec by (simpl; lia). by rewrite Z.max_r by lia.
Qed.

Lemma bullet_item_shape line b :
  Forall (λ c, is_linebreak c = false) line →
  bullet_item line = Some b →
  b ≠ [] ∧ trimmed b ∧ Forall (λ c, is_linebreak c = false) b.
Proof.
  intros Hline. unfold bullet_item. cbv zeta.
  destruct (_ || _); [|done].
  destruct (nonempty _) eqn:Hne; [|done]. intros [= <-].
  split; [by intros E; rewrite E in Hne|]. split; [apply strip_trimmed|].
  apply strip_Forall. unfold lstrip_chars. apply drop_while_Forall.
  by apply strip_Forall.
Qed.

(** X5. Every bullet taken from a release body is a non-empty text
    without white space at either end and without a line break inside, so
    that a bullet fills exactly one line of the report. *)
Theorem summarize_bullets_shape (body : pystr) (limit : Z) (b : pystr) :
  b ∈ _summarize_bullets_from_markdown body limit →
  b ≠ [] ∧ trimmed b ∧ Forall (λ c, is_linebreak c = false) b.
Proof.
  rewrite summarize_take. intros Hb%elem_of_take.
  destruct Hb as (i & Hb & _). apply list_elem_of_lookup_2 in Hb.
  apply list_elem_of_omap in Hb as (line & Hline & Hitem).
  eapply bullet_item_shape; [|done].
  pose proof (splitlines_from_no_break body [] false ltac:(constructor)) as Hall.
  by apply (proj1 (Forall_forall _ _) Hall).
Qed.

(** X6. For every limit the result is a prefix of the bullet items of
    the body, of at most [max 1 limit] entries: a limit of zero or less
    still yields the first bullet, because the limit is tested only after a
    bullet was taken, and a larger limit only extends the result. *)
Theorem summarize_bullets_any_limit (body : pystr) (limit : Z) :
  let items := omap bullet_item (splitlines body) in
  _summarize_bullets_from_markdown body limit = take (Z.to_nat (Z.max 1 limit)) items
  ∧ length (_summarize_bullets_from_markdown body limit)
    = Nat.min (Z.to_nat (Z.max 1 limit)) (length items)
  ∧ ((limit ≤ 0)%Z → _summarize_bullets_from_markdown body limit = take 1 items)
  ∧ (∀ limit', (limit ≤ limit')%Z →
       _summarize_bullets_from_markdown body limit
       `prefix_of` _summarize_bullets_from_markdown body limit').
Proof.
  intros items. split; [apply summarize_take|]. split; [|split].
  - rewrite summarize_take. apply length_take.
  - intros Hl. rewrite summarize_take. by rewrite Z.max_l by lia.
  - intros limit' Hle. rewrite !summarize_take. fold items.
    set (n := Z.to_nat (Z.max 1 limit)). set (n' := Z.to_nat (Z.max 1 limit')).
    assert (Hn : n ≤ n') by (unfold n, n'; lia).
    exists (take (n' - n) (drop n items)).
    rewrite take_take_drop. f_equal. lia.
Qed.

(** ** The classifier and surrounding white space *)

(** X7. White space before and after the query does not change how the
    query is classified. *)
Theorem classify_query_ignores_padding `{PyRuntime} (before query after : pystr) :
  Forall (λ c, isspace c = true) before →
  Forall (λ c, isspace c = true) after →
  _classify_query (before ++ query ++ after) = _classify_query query.
Proof.
  intros Hb Ha. unfold _classify_query. by rewrite strip_pad.
Qed.

Lemma classify_query_ignores_padding_witness :
  _classify_query (RT := table_runtime [])
    (u "  " ++ u "porównaj wady i zalety X i Y" ++ nl)
  = _classify_query (RT := table_runtime []) (u "porównaj wady i zalety X i Y").
Proof.
  apply (classify_query_ignores_padding (H := table_runtime [])).
  - by repeat constructor.
  - by repeat constructor.
Defined.

Lemma summarize_bullets_shape_witness :
  u "alfa" ≠ [] ∧ trimmed (u "alfa")
  ∧ Forall (λ c, is_linebreak c = false) (u "alfa").
Proof.
  apply (summarize_bullets_shape (u "  - alfa  " ++ nl ++ u "* beta") 8).
  apply list_elem_of_In. vm_compute. tauto.
Defined.

Section MoreFacts.
Context {RT : PyRuntime}.

Lemma decimal_digit c v :
  (∀ c v, unicode_decimal c = Some v → (0 ≤ v ≤ 9)%Z) →
  decimal c = Some v → (0 ≤ v ≤ 9)%Z.
Proof.
  intros Huni. unfold decimal. destruct (c <? 128)%N; [|apply Huni].
  destruct (N.leb_spec 48 c), (N.leb_spec c 57); simpl; try done.
  intros [= <-]. lia.
Qed.

(** X8. On a runtime whose decimal digits have the values 0 to 9, as
    Python's have, an extracted range lies within the two-digit minors:
    0 ≤ min ≤ max ≤ 99. *)
Theorem extract_range_two_digits (query : pystr) (lo hi : Z) :
  (∀ c v, unicode_decimal c = Some v → (0 ≤ v ≤ 9)%Z) →
  _extract_codex_cli_range query = Some (lo, hi) →
  (0 ≤ lo ∧ lo ≤ hi ∧ hi ≤ 99)%Z.
Proof.
  intros Huni Hr.
  assert (Hm : ∀ m, m ∈ finditer_minors query 0 → (0 ≤ m ≤ 99)%Z).
  { intros m (a & b & d1 & d2 & v1 & v2 & _ & H1 & H2 & ->)%finditer_minors_sound.
    pose proof (decimal_digit _ _ Huni H1). pose proof (decimal_digit _ _ Huni H2).
    lia. }
  pose proof (extract_range_ordered _ _ _ Hr) as Hle.
  unfold _extract_codex_cli_range in Hr.
  destruct (finditer_minors query 0) as [|m ms]; [done|]. injection Hr as <- <-.
  destruct (list_min_spec m ms) as [Hmin _], (list_max_spec m ms) as [Hmax _].
  apply Hm in Hmin, Hmax. lia.
Qed.

Lemma candidate_shape s c :
  candidate s = Some c →
  title c ≠ [] ∧ url c ≠ [] ∧ trimmed (title c) ∧ trimmed (url c).
Proof.
  destruct s; try done. unfold candidate. cbv zeta.
  destruct (nonempty (strip (py_str (get_or (u "url") d (JStr []))))) eqn:Hu; [|done].
  intros [= <-]. cbn [title url].
  assert (Hurl : strip (py_str (get_or (u "url") d (JStr []))) ≠ []).
  { intros E. by rewrite E in Hu. }
  destruct (nonempty (strip (py_str (get_or (u "title") d (JStr []))))) eqn:Ht.
  - split; [by intros E; rewrite E in Ht|]. split; [done|].
    split; apply strip_trimmed.
  - split; [done|]. split; [done|]. split; apply strip_trimmed.
Qed.

Lemma merged_sources_run step1 step2 step3 c1 c2 c3 :
  step_candidates step1 = Some c1 → step_candidates step2 = Some c2 →
  step_candidates step3 = Some c3 →
  merged_sources step1 step2 step3 = Some (first_by_url [] (c1 ++ c2 ++ c3)).
Proof.
  unfold step_candidates, merged_sources. cbn [merge_steps].
  destruct (py_iter (get_or (u "sources") step1 (JList []))) as [i1|]; [|done].
  destruct (py_iter (get_or (u "sources") step2 (JList []))) as [i2|]; [|done].
  destruct (py_iter (get_or (u "sources") step3 (JList []))) as [i3|]; [|done].
  intros [= <-] [= <-] [= <-].
  rewrite (foldl_merge_one i1 [] ∅ []) by set_solver. cbv zeta.
  set (k1 := first_by_url [] (omap candidate i1)).
  rewrite (foldl_merge_one i2 _ _ (map url k1 ++ [])).
  2:{ intros x. rewrite elem_of_union, elem_of_list_to_set. set_solver. }
  cbv zeta. set (k2 := first_by_url (map url k1 ++ []) (omap candidate i2)).
  rewrite (foldl_merge_one i3 _ _ (map url k2 ++ map url k1 ++ [])).
  2:{ intros x. rewrite !elem_of_union, !elem_of_list_to_set, !elem_of_app.
      set_solver. }
  cbv zeta. simpl. f_equal.
  rewrite !first_by_url_app. fold k1. fold k2. by rewrite <- app_assoc.
Qed.

Lemma merged_sources_Some_inv step1 step2 step3 merged :
  merged_sources step1 step2 step3 = Some merged →
  ∃ c1 c2 c3,
    step_candidates step1 = Some c1 ∧ step_candidates step2 = Some c2
    ∧ step_candidates step3 = Some c3
    ∧ merged = first_by_url [] (c1 ++ c2 ++ c3).
Proof.
  intros Hm.
  destruct (step_candidates step1) as [c1|] eqn:E1; last first.
  { unfold step_candidates, merged_sources in *. cbn [merge_steps] in Hm.
    by destruct (py_iter (get_or (u "sources") step1 (JList []))). }
  destruct (step_candidates step2) as [c2|] eqn:E2; last first.
  { unfold step_candidates, merged_sources in *. cbn [merge_steps] in Hm.
    destruct (py_iter (get_or (u "sources") step1 (JList []))); [|done].
    by destruct (py_iter (get_or (u "sources") step2 (JList []))). }
  destruct (step_candidates step3) as [c3|] eqn:E3; last first.
  { unfold step_candidates, merged_sources in *. cbn [merge_steps] in Hm.
    destruct (py_iter (get_or (u "sources") step1 (JList []))); [|done].
    destruct (py_iter (get_or (u "sources") step2 (JList []))); [|done].
    by destruct (py_iter (get_or (u "sources") step3 (JList []))). }
  exists c1, c2, c3. rewrite (merged_sources_run _ _ _ _ _ _ E1 E2 E3) in Hm.
  by injection Hm as <-.
Qed.

Lemma step_candidates_elem step cs c :
  step_candidates step = Some cs → c ∈ cs → ∃ s, candidate s = Some c.
Proof.
  unfold step_candidates.
  destruct (py_iter (get_or (u "sources") step (JList []))) as [items|]; [|done].
  intros [= <-] (s & _ & Hs)%list_elem_of_omap. eauto.
Qed.

(** X9. Every merged source has a non-empty title and a non-empty url,
    both without white space at either end: an entry without a title gets
    its url as title. The merged list is never longer than what the three
    iterations offered. *)
Theorem merged_sources_entries (step1 step2 step3 : pydict) (merged : list source) :
  merged_sources step1 step2 step3 = Some merged →
  Forall (λ s, title s ≠ [] ∧ url s ≠ [] ∧ trimmed (title s) ∧ trimmed (url s)) merged
  ∧ ∃ c1 c2 c3,
      step_candidates step1 = Some c1 ∧ step_candidates step2 = Some c2
      ∧ step_candidates step3 = Some c3
      ∧ length merged ≤ length c1 + length c2 + length c3.
Proof.
  intros (c1 & c2 & c3 & H1 & H2 & H3 & ->)%merged_sources_Some_inv. split.
  - apply Forall_forall. intros r [_ Hr]%first_by_url_fresh.
    apply elem_of_app in Hr as [Hr|Hr%elem_of_app].
    + destruct (step_candidates_elem _ _ _ H1 Hr) as [s Hs]. by eapply candidate_shape.
    + destruct Hr as [Hr|Hr].
      * destruct (step_candidates_elem _ _ _ H2 Hr) as [s Hs]. by eapply candidate_shape.
      * destruct (step_candidates_elem _ _ _ H3 Hr) as [s Hs]. by eapply candidate_shape.
  - exists c1, c2, c3. split; [done|]. split; [done|]. split; [done|].
    pose proof (sublist_length _ _ (first_by_url_sublist [] (c1 ++ c2 ++ c3))) as Hl.
    rewrite !length_app in Hl. lia.
Qed.

Lemma first_by_url_seen seen cs :
  (∀ c, c ∈ cs → url c ∈ seen) → first_by_url seen cs = [].
Proof.
  induction cs as [|c cs IH]; [done|]. intros Hall. simpl.
  rewrite bool_decide_eq_true_2 by (apply Hall; by left).
  apply IH. intros c' Hc'. apply Hall. by right.
Qed.

Lemma step_candidates_empty : step_candidates [] = Some [].
Proof. reflexivity. Qed.

(** X10. Iterations that only offer urls the first iteration offered add
    nothing to the merge; in particular merging a plan with itself three
    times gives what the plan alone gives. *)
Theorem merged_sources_absorbs (step1 step2 step3 : pydict) (c1 c2 c3 : list source) :
  step_candidates step1 = Some c1 → step_candidates step2 = Some c2 →
  step_candidates step3 = Some c3 →
  (∀ c, c ∈ c2 ++ c3 → url c ∈ map url c1) →
  merged_sources step1 step2 step3 = merged_sources step1 [] []
  ∧ merged_sources step1 step1 step1 = merged_sources step1 [] [].
Proof.
  intros H1 H2 H3 Hseen.
  assert (Habs : ∀ cs, (∀ c, c ∈ cs → url c ∈ map url c1) →
            first_by_url [] (c1 ++ cs) = first_by_url [] c1).
  { intros cs Hcs. rewrite first_by_url_app.
    rewrite (first_by_url_seen (map url (first_by_url [] c1) ++ []) cs);
      [by rewrite app_nil_r|].
    intros c Hc. rewrite app_nil_r.
    specialize (Hcs c Hc).
    apply list_elem_of_In, in_map_iff in Hcs as (c0 & Hu & Hc0).
    apply list_elem_of_In in Hc0.
    destruct (first_by_url_covers [] c1 c0 Hc0) as [?%elem_of_nil|Hin]; [done|].
    by rewrite <- Hu. }
  rewrite (merged_sources_run _ _ _ _ _ _ H1 H2 H3).
  rewrite (merged_sources_run _ _ _ _ _ _ H1 H1 H1).
  rewrite (merged_sources_run _ _ _ _ _ _ H1 step_candidates_empty step_candidates_empty).
  rewrite !app_nil_r. split; f_equal; apply Habs; [done|].
  intros c [Hc|Hc]%elem_of_app; by apply list_elem_of_fmap_2.
Qed.

End MoreFacts.

(** ** Further properties of whole runs *)

Lemma quiet_no_output net : quiet net → stdout_of net = [] ∧ stderr_of net = [].
Proof.
  induction 1 as [|e net He _ [IH1 IH2]]; [done|].
  destruct e; try done.
Qed.

Lemma stderr_of_snoc t e :
  stderr_of (t ++ [e])
  = stderr_of t ++ match e with Stderr text => [text] | _ => [] end.
Proof. unfold stderr_of. rewrite omap_app. by destruct e. Qed.

Lemma bind_Normal {A B} (c : M A) (k : A → M B) t b t'' :
  bind c k t = (Normal b, t'') →
  ∃ a t', c t = (Normal a, t') ∧ k a t' = (Normal b, t'').
Proof.
  unfold bind. destruct (c t) as [[a|e] t']; [|done]. intros H. by exists a, t'.
Qed.

Lemma report_nonempty `{PyRuntime} lo hi releases lang :
  nonempty (report lo hi releases lang) = true.
Proof. unfold report. by destruct (rstrip _). Qed.

Section RunFacts.
Context {RT : PyRuntime}.
Variable urlopen : list event → reply.
Variable environ_api_key : option pystr.

(** X11. Whatever the network answers and whatever the arguments, a run
    ends with status 0, 1 or 2; it prints to the output stream exactly
    when it ends with status 0, then once and as its last action, with
    nothing on the error stream; it writes to the error stream exactly when
    it ends with status 2, then one diagnostic as its last action, with
    nothing on the output stream; when it ends with an uncaught exception
    (status 1) the script has written to neither stream. *)
Theorem main_output_discipline (a : args) :
  let run := main urlopen environ_api_key a [] in
  (exit_code run.1 = 0 ∨ exit_code run.1 = 1 ∨ exit_code run.1 = 2)%Z
  ∧ (exit_code run.1 = 0%Z →
       ∃ text, last run.2 = Some (Stdout text)
               ∧ stdout_of run.2 = [text] ∧ stderr_of run.2 = [])
  ∧ (exit_code run.1 = 2%Z →
       ∃ msg, last run.2 = Some (Stderr msg)
              ∧ stderr_of run.2 = [msg] ∧ stdout_of run.2 = [])
  ∧ (exit_code run.1 = 1%Z → stdout_of run.2 = [] ∧ stderr_of run.2 = []).
Proof.
  intros run.
  destruct (disciplined_main urlopen environ_api_key a []) as (ext & Hext & Hok & _).
  fold run in Hext, Hok. simpl in Hext. rewrite Hext.
  destruct run.1 as [[]|[c| | | |]]; simpl in Hok |- *.
  - destruct Hok as (net & text & -> & [Ho He]%quiet_no_output).
    split; [by left|]. split; [|split; [done|done]].
    intros _. exists text. rewrite last_snoc, stdout_of_snoc, stderr_of_snoc, Ho, He.
    done.
  - destruct Hok as (-> & net & msg & -> & [Ho He]%quiet_no_output).
    split; [by right; right|]. split; [done|]. split; [|done].
    intros _. exists msg. rewrite last_snoc, stdout_of_snoc, stderr_of_snoc, Ho, He.
    done.
  - apply quiet_no_output in Hok. split; [by right; left|]. done.
  - apply quiet_no_output in Hok. split; [by right; left|]. done.
  - apply quiet_no_output in Hok. split; [by right; left|]. done.
  - apply quiet_no_output in Hok. split; [by right; left|]. done.
Qed.

(** X12. A run sends at most one request to the releases listing and at
    most four to the chat endpoint, and nothing else: every request is
    either the fixed releases request, which carries no credentials, or a
    chat completion to the fixed endpoint carrying the key of the
    environment. Without a key no chat request is sent. *)
Theorem main_request_discipline (a : args) :
  let run := main urlopen environ_api_key a [] in
  length (filter is_get run.2) ≤ 1
  ∧ length (filter is_post run.2) ≤ 4
  ∧ (∀ e, e ∈ run.2 → is_network e = true →
       e = fetch ∨ ∃ k payload, environ_api_key = Some k ∧ e = chat_post k payload)
  ∧ (environ_api_key = None → filter is_post run.2 = []).
Proof.
  intros run.
  destruct (disciplined_main urlopen environ_api_key a [])
    as (ext & Hext & _ & Hall & Hg & Hp).
  fold run in Hext. simpl in Hext. rewrite Hext.
  split; [done|]. split; [done|].
  assert (Hreq : ∀ e, e ∈ ext → is_network e = true →
            e = fetch ∨ ∃ k payload, environ_api_key = Some k ∧ e = chat_post k payload).
  { intros e He Hn. by apply (proj1 (Forall_forall _ _) Hall e He Hn). }
  split; [done|].
  intros Hnone. apply filter_none, Forall_forall. intros e He Hpost.
  assert (Hn : is_network e = true) by (by destruct e).
  destruct (Hreq e He Hn) as [->|(k & payload & Hk & _)]; [done|congruence].
Qed.

Lemma range_None q :
  _extract_codex_cli_range q = None ↔ ¬ ∃ m, minor_occurs m q.
Proof.
  unfold _extract_codex_cli_range. split.
  - destruct (finditer_minors q 0) eqn:E; [|done]. intros _ [m Hm].
    by apply (finditer_minors_complete _ 0%nat m E).
  - intros Hno. destruct (finditer_minors q 0) as [|m ms] eqn:E; [done|].
    destruct Hno. exists m. apply (finditer_minors_sound _ 0%nat). rewrite E. by left.
Qed.

Lemma range_Some q lo hi :
  _extract_codex_cli_range q = Some (lo, hi) → ∃ m, minor_occurs m q.
Proof.
  unfold _extract_codex_cli_range.
  destruct (finditer_minors q 0) as [|m ms] eqn:E; [done|]. intros _.
  exists m. apply (finditer_minors_sound _ 0%nat). rewrite E. by left.
Qed.

Lemma changelog_skips q l t :
  ¬ triggered q → _maybe_codex_cli_changelog_tldr urlopen q l t = (Normal None, t).
Proof.
  intros Hnot. unfold _maybe_codex_cli_changelog_tldr.
  destruct (isin (u "codex") (lower q)) eqn:Hc; [|done].
  destruct (isin (u "cli") (lower q)) eqn:Hl; [|done]. cbn [negb orb].
  destruct (_extract_codex_cli_range q) as [[lo hi]|] eqn:Hr; [|done].
  destruct Hnot. split; [by apply isin_spec|]. split; [by apply isin_spec|].
  by eapply range_Some.
Qed.

Lemma changelog_triggered q l t :
  triggered q →
  ∃ lo hi,
    _extract_codex_cli_range q = Some (lo, hi)
    ∧ _maybe_codex_cli_changelog_tldr urlopen q l t
      = bind (_http_get_json urlopen GITHUB_RELEASES_API changelog_headers)
          (λ data,
             match data with
             | JList rs =>
                 let releases := collect_releases lo hi rs in
                 if bool_decide (releases = ∅) then ret None
                 else ret (Some (report lo hi releases l))
             | _ => ret None
             end) t.
Proof.
  intros (Hcodex%isin_spec & Hcli%isin_spec & Hm).
  destruct (_extract_codex_cli_range q) as [[lo hi]|] eqn:Hr;
    [|by apply range_None in Hr].
  exists lo, hi. split; [done|].
  unfold _maybe_codex_cli_changelog_tldr. rewrite Hcodex, Hcli, Hr. cbn [negb orb].
  pose proof (extract_range_ordered _ _ _ Hr).
  destruct (Z.ltb_spec hi lo); [lia|]. done.
Qed.

(** X13. The releases listing is requested exactly when the query, in
    lower case, contains "codex" and "cli" and the query contains a
    "0.NN": otherwise the short-circuit declines without any event, and
    then the request is the first thing it does. *)
Theorem changelog_fetches_iff_triggered (q l : pystr) (t : list event) :
  (¬ triggered q → _maybe_codex_cli_changelog_tldr urlopen q l t = (Normal None, t))
  ∧ (triggered q →
       ∃ rest, (_maybe_codex_cli_changelog_tldr urlopen q l t).2 = t ++ fetch :: rest).
Proof.
  split.
  - apply changelog_skips.
  - intros Htr. destruct (changelog_triggered q l t Htr) as (lo & hi & _ & ->).
    unfold bind. rewrite http_get_json_run. cbv zeta.
    destruct (urlopen _) as [e|code raw|raw].
    + eexists. cbn [snd]. by rewrite <- app_assoc.
    + eexists. cbn [snd]. by rewrite <- app_assoc.
    + destruct (json_loads raw) as [data| |].
      * exists []. destruct data; try done. by destruct (bool_decide _).
      * eexists. cbn [snd]. by rewrite <- app_assoc.
      * by exists [].
Qed.


Lemma main_through_changelog a o t :
  (1 ≤ max_results a ≤ 20)%Z →
  _maybe_codex_cli_changelog_tldr urlopen (query a) (lang a) [] = (Raised o, t) →
  main urlopen environ_api_key a [] = (Raised o, t).
Proof.
  intros Hmr Hc. rewrite main_validated by done.
  unfold after_validation, bind. by rewrite Hc.
Qed.

(** X14. When the releases listing is requested and the request fails, the
    server answers with an error status, or the body is not JSON, the run
    ends with status 2 and the matching diagnostic, whatever the mode and
    whether or not an API key is set: the LLM path is not tried. *)
Theorem changelog_fetch_failure_is_fatal (a : args) :
  triggered (query a) → (1 ≤ max_results a ≤ 20)%Z →
  let run := main urlopen environ_api_key a [] in
  match urlopen [fetch] with
  | NetFailed e =>
      run = (Raised (SystemExit 2), [fetch; Stderr (u "HTTP request failed: " ++ e)])
  | NetHTTPError code raw =>
      run = (Raised (SystemExit 2),
             [fetch; Stderr (u "HTTP error: " ++ str_of_int code ++ nl ++ raw)])
  | NetBody raw =>
      json_loads raw = JSONDecodeError →
      run = (Raised (SystemExit 2),
             [fetch; Stderr (u "Non-JSON response:" ++ nl ++ raw)])
  end.
Proof.
  intros Htr Hmr run.
  destruct (changelog_triggered (query a) (lang a) [] Htr) as (lo & hi & _ & Hc).
  unfold bind in Hc. rewrite http_get_json_run in Hc. cbv zeta in Hc.
  change ([] ++ [fetch]) with [fetch] in Hc.
  destruct (urlopen [fetch]) as [e|code raw|raw].
  - by apply main_through_changelog.
  - by apply main_through_changelog.
  - intros Hl. rewrite Hl in Hc. by apply main_through_changelog.
Qed.

Lemma collect_releases_nonempty lo hi rs d m :
  JDict d ∈ rs → fullmatch_tag (tag_of d) = Some m → (lo ≤ m ≤ hi)%Z →
  collect_releases lo hi rs ≠ ∅.
Proof.
  intros Hin Ht Hm Hempty.
  assert (Hl : collect_releases lo hi rs !! m = None) by (by rewrite Hempty).
  unfold collect_releases in Hl. rewrite collect_releases_lookup in Hl.
  destruct (last_release lo hi m rs) eqn:El; [done|].
  apply (last_release_None _ _ _ _ El (JDict d) d Hin).
  by apply release_minor_Some.
Qed.


Lemma explicit_depth_intent_not_auto q m :
  _explicit_depth_intent q = Some m → m = deep ∨ m = simple.
Proof.
  unfold _explicit_depth_intent.
  destruct (any_in deep_keywords _); [intros [= <-]; by left|].
  destruct (any_in simple_keywords _); [intros [= <-]; by right|done].
Qed.


Lemma request_Normal api_key payload t data t' :
  _request urlopen api_key payload t = (Normal data, t') →
  t' = t ++ [chat_post api_key payload]
  ∧ ∃ raw, urlopen t' = NetBody raw ∧ json_loads raw = Loaded data.
Proof.
  rewrite request_run. cbv zeta. fold (chat_post api_key payload).
  destruct (urlopen _) as [e|code raw|raw] eqn:Hu; [done|done|].
  destruct (json_loads raw) eqn:Hl; [|done|done].
  intros [= <- <-]. split; [done|]. exists raw. by rewrite Hu.
Qed.

Lemma json_plan_Normal k m q l n t step t' :
  _openrouter_web_search_json_plan urlopen k m q l n t = (Normal step, t') →
  t' = t ++ [chat_post k (web_payload m n (plan_prompt q l))]
  ∧ ∃ raw data content,
      urlopen t' = NetBody raw ∧ json_loads raw = Loaded data
      ∧ schema_content data = Some content ∧ step = plan_of_content content.
Proof.
  intros (data & t1 & Hreq & Hk)%bind_Normal.
  apply request_Normal in Hreq as (-> & raw & Hu & Hl).
  destruct (schema_content data) as [content|] eqn:Hs; [|done].
  injection Hk as <- <-. split; [done|]. by exists raw, data, content.
Qed.

Lemma followup_or_list fl i fallback t q t' :
  followup_or (JList fl) i fallback t = (Normal q, t') →
  t' = t ∧ q = default fallback (py_str <$> fl !! i).
Proof.
  unfold followup_or. cbn [py_len].
  destruct (Nat.leb_spec (i + 1) (length fl)) as [Hi|Hi].
  - unfold str_item. destruct (fl !! i) as [x|] eqn:E; [|done].
    by intros [= <- <-].
  - rewrite lookup_ge_None_2 by lia. by intros [= <- <-].
Qed.

Lemma followup_or_Normal f i fallback t q t' :
  followup_or f i fallback t = (Normal q, t') → t' = t.
Proof.
  unfold followup_or. destruct (py_len f); [|done].
  destruct (_ <=? _)%nat; [|by intros [= _ <-]].
  unfold str_item. destruct f; try done.
  - destruct (_ !! _); [by intros [= _ <-]|done].
  - destruct (_ !! _); [by intros [= _ <-]|done].
Qed.


End RunFacts.

Section RunFacts2.
Context {RT : PyRuntime}.
Variable urlopen : list event → reply.
Variable environ_api_key : option pystr.


Lemma plan_of_plain_content content :
  123%N ∉ content → plan_of_content content = empty_plan.
Proof.
  intros Hno. unfold plan_of_content, _extract_first_json_object.
  rewrite drop_while_all; [reflexivity|].
  apply Forall_forall. intros c Hc. apply negb_true_iff, N.eqb_neq.
  intros ->. done.
Qed.

Lemma json_plan_plain k m q l n t :
  plain_replies urlopen →
  _openrouter_web_search_json_plan urlopen k m q l n t
  = (Normal empty_plan, t ++ [chat_post k (web_payload m n (plan_prompt q l))]).
Proof.
  intros Hplain. unfold _openrouter_web_search_json_plan, bind.
  rewrite request_run. cbv zeta. fold (chat_post k (web_payload m n (plan_prompt q l))).
  destruct (Hplain (t ++ [chat_post k (web_payload m n (plan_prompt q l))]))
    as (raw & data & content & -> & -> & Hs & Hno).
  rewrite Hs. unfold ret. by rewrite plan_of_plain_content.
Qed.


End RunFacts2.

(** ** The further properties on concrete inputs *)

Lemma changelog_fetch_failure_is_fatal_witness :
  main (RT := table_runtime []) offline (Some (u "sk-test"))
    (sample_args (u "codex cli 0.80") 5 deep) []
  = (Raised (SystemExit 2),
     [fetch; Stderr (u "HTTP request failed: " ++ u "offline")]).
Proof.
  apply (changelog_fetch_failure_is_fatal (RT := table_runtime []) offline
           (Some (u "sk-test")) (sample_args (u "codex cli 0.80") 5 deep)).
  - split; [apply isin_spec; vm_compute; reflexivity|].
    split; [apply isin_spec; vm_compute; reflexivity|].
    exists 80%Z, (u "codex cli "), [], (ch "8"), (ch "0"), 8%Z, 0%Z.
    vm_compute. done.
  - simpl. lia.
Defined.


Lemma changelog_fetches_iff_triggered_witness :
  _maybe_codex_cli_changelog_tldr (RT := table_runtime []) offline
    (u "pogoda w Gdyni") (u "pl") []
  = (Normal None, []).
Proof.
  apply (changelog_fetches_iff_triggered (RT := table_runtime []) offline).
  intros (Hcodex%isin_spec & _). vm_compute in Hcodex. discriminate.
Defined.



Lemma plain_chat_replies :
  plain_replies (RT := table_runtime chat_table) (λ _, NetBody (u "ok")).
Proof.
  intros t. exists (u "ok"), chat_document, (u "brak planu").
  split; [done|]. split; [vm_compute; reflexivity|].
  split; [vm_compute; reflexivity|].
  intros Hin. apply list_elem_of_In in Hin. vm_compute in Hin.
  intuition discriminate.
Qed.



Lemma extract_range_two_digits_witness :
  (0 ≤ 80 ∧ 80 ≤ 87 ∧ 87 ≤ 99)%Z.
Proof.
  apply (extract_range_two_digits (RT := table_runtime []) (u "0.80-0.87 cli codex")).
  - intros c v. discriminate.
  - vm_compute. reflexivity.
Defined.

Lemma merged_sources_entries_witness :
  Forall (λ s, title s ≠ [] ∧ url s ≠ [] ∧ trimmed (title s) ∧ trimmed (url s))
    [ {| title := u "A"; url := u "http://a" |};
      {| title := u "http://b"; url := u "http://b" |} ].
Proof.
  apply (merged_sources_entries (RT := table_runtime [])
           (sample_step [ (u " A ", u "http://a"); (u "", u " http://b") ]) [] []).
  vm_compute. reflexivity.
Defined.

Lemma merged_sources_absorbs_witness :
  merged_sources (RT := table_runtime [])
    (sample_step [ (u "A", u "http://a"); (u "B", u "http://b") ])
    (sample_step [ (u "B bis", u "http://b") ])
    []
  = merged_sources (RT := table_runtime [])
      (sample_step [ (u "A", u "http://a"); (u "B", u "http://b") ]) [] [].
Proof.
  refine (proj1 (merged_sources_absorbs (RT := table_runtime [])
            (sample_step [ (u "A", u "http://a"); (u "B", u "http://b") ])
            (sample_step [ (u "B bis", u "http://b") ]) []
            [ {| title := u "A"; url := u "http://a" |};
              {| title := u "B"; url := u "http://b" |} ]
            [ {| title := u "B bis"; url := u "http://b" |} ] [] _ _ _ _)).
  - vm_compute. reflexivity.
  - vm_compute. reflexivity.
  - vm_compute. reflexivity.
  - intros c Hc. apply list_elem_of_In in Hc. apply list_elem_of_In.
    vm_compute in Hc. destruct Hc as [<-|[]]. vm_compute. tauto.
Defined.
